(** * openedx/core/lib/request_utils.py

    A shallow embedding of the HTTP-request helpers of
    [openedx.core.lib.request_utils] and of [CookieMonitoringMiddleware],
    together with the properties stated about them.

    Python integers are [Z], Python [str] is [string], a Python [dict] is an
    insertion-ordered association list with unique keys, exceptions are an
    error type threaded through a small monad, and the effects of the
    middleware (reading [request.COOKIES], [set_custom_attribute],
    [log.debug]) are events appended to a trace. *)

From Stdlib Require Import List String Ascii ZArith Bool Lia Permutation.
Import ListNotations.
Local Open Scope string_scope.
Local Open Scope Z_scope.

(** ** Exceptions and Python values *)

Inductive exn : Type :=
| ValueError
| KeyError
| InvalidKeyError
| DisallowedHost.

Definition exn_eqb (a b : exn) : bool :=
  match a, b with
  | ValueError, ValueError
  | KeyError, KeyError
  | InvalidKeyError, InvalidKeyError
  | DisallowedHost, DisallowedHost => true
  | _, _ => false
  end.

Inductive result (A : Type) : Type :=
| Ok (a : A)
| Raise (e : exn).

Arguments Ok {A} a.
Arguments Raise {A} e.

Definition result_bind {A B : Type} (c : result A) (k : A -> result B)
    : result B :=
  match c with
  | Ok a => k a
  | Raise e => Raise e
  end.

(** [try: body except caught: handler] *)
Definition try_except {A : Type} (body : result A) (caught : exn)
    (handler : result A) : result A :=
  match body with
  | Ok a => Ok a
  | Raise e => if exn_eqb e caught then handler else Raise e
  end.

#[local] Set Warnings "-register-all".
Inductive pyval : Type :=
| VNone
| VBool (b : bool)
| VInt (n : Z)
| VStr (s : string)
| VList (l : list pyval)
| VTuple (l : list pyval).

(** ** Insertion-ordered dictionaries with string keys *)

Module Dict.
Section Dict.
Context {V : Type}.

Definition t : Type := list (string * V).

Definition empty : t := [].

(** [d.get(k)]: the value stored under [k], if any. *)
Fixpoint get (d : t) (k : string) : option V :=
  match d with
  | [] => None
  | (k', v) :: rest => if String.eqb k' k then Some v else get rest k
  end.

(** [d.get(k, default)] *)
Definition get_default (d : t) (k : string) (default : V) : V :=
  match get d k with
  | Some v => v
  | None => default
  end.

(** [d[k]]: raises [KeyError] on a missing key. *)
Definition index (d : t) (k : string) : result V :=
  match get d k with
  | Some v => Ok v
  | None => Raise KeyError
  end.

(** [d[k] = v]: an existing key keeps its position, a new key goes last. *)
Fixpoint set (d : t) (k : string) (v : V) : t :=
  match d with
  | [] => [(k, v)]
  | (k', v') :: rest =>
      if String.eqb k' k then (k', v) :: rest else (k', v') :: set rest k v
  end.

Definition keys (d : t) : list string := map fst d.
Definition values (d : t) : list V := map snd d.
Definition items (d : t) : list (string * V) := d.

(** A list of pairs is the item list of a real dict when no key repeats. *)
Definition well_formed (d : t) : Prop := NoDup (keys d).
End Dict.
Arguments t : clear implicits.
End Dict.

(** ** Builtins *)

(** [max(iterable, key=...)]: the first element whose key is largest;
    [ValueError] on an empty iterable. *)
Fixpoint max_loop (key : string -> result Z) (maxitem : string) (maxval : Z)
    (l : list string) : result string :=
  match l with
  | [] => Ok maxitem
  | item :: rest =>
      match key item with
      | Raise e => Raise e
      | Ok val =>
          if maxval <? val then max_loop key item val rest
          else max_loop key maxitem maxval rest
      end
  end.

Definition py_max (l : list string) (key : string -> result Z) : result string :=
  match l with
  | [] => Raise ValueError
  | item :: rest =>
      match key item with
      | Raise e => Raise e
      | Ok val => max_loop key item val rest
      end
  end.

(** [sum(iterable)] *)
Definition py_sum (l : list Z) : Z := fold_left Z.add l 0.

(** [len(s)] *)
Definition len (s : string) : Z := Z.of_nat (String.length s).

(** [x or default] on an optional integer: [None] and [0] are falsy. *)
Definition or_else (x : option Z) (default : Z) : Z :=
  match x with
  | None => default
  | Some n => if n =? 0 then default else n
  end.

(** ** Requests *)

(** [META] is the WSGI environ of the request, which holds its
    ['SERVER_NAME'] and ['SERVER_PORT']. *)
Record HttpRequest : Type := {
  method : string;
  path : string;
  META : Dict.t pyval;
  COOKIES : Dict.t string
}.

Record HttpResponse : Type := {
  status_code : Z;
  content : string
}.

Record Settings : Type := {
  SITE_NAME : string;
  ALLOWED_HOSTS : pyval
}.

(** ** get_request_or_stub *)

(** What the code reads of the value of [urlparse(full_url)]: [.hostname]
    and [.port].  Reading [.port] raises [ValueError] when the port is not a
    number in range. *)
Record ParseResult : Type := {
  hostname : option string;
  port : result (option Z)
}.

(** [d.update(items)] *)
Definition update (d : Dict.t pyval) (items : Dict.t pyval) : Dict.t pyval :=
  fold_left (fun d item => Dict.set d (fst item) (snd item)) items d.

(** Django's [django.test.client.RequestFactory]: the keyword arguments of
    the constructor are kept as the factory's [defaults]. *)
Record RequestFactory : Type := {
  defaults : Dict.t pyval
}.

(** The plain entries of the environ [RequestFactory._base_environ] starts
    from (its stream entries are left out). *)
Definition builtin_environ : Dict.t pyval :=
  [("HTTP_COOKIE", VStr "");
   ("PATH_INFO", VStr "/");
   ("REMOTE_ADDR", VStr "127.0.0.1");
   ("REQUEST_METHOD", VStr "GET");
   ("SCRIPT_NAME", VStr "");
   ("SERVER_NAME", VStr "testserver");
   ("SERVER_PORT", VStr "80");
   ("SERVER_PROTOCOL", VStr "HTTP/1.1");
   ("wsgi.url_scheme", VStr "http");
   ("wsgi.multiprocess", VBool true);
   ("wsgi.multithread", VBool false);
   ("wsgi.run_once", VBool false)].

(** [RequestFactory._base_environ]: the built-in entries, updated
    with the factory's defaults, updated with the entries of the request. *)
Definition base_environ (factory : RequestFactory) (request : Dict.t pyval)
    : Dict.t pyval :=
  update (update builtin_environ (defaults factory)) request.

Definition str_of (v : option pyval) : string :=
  match v with
  | Some (VStr s) => s
  | _ => ""
  end.

(** [WSGIRequest(environ)], for an environ without cookies. *)
Definition WSGIRequest (environ : Dict.t pyval) : HttpRequest :=
  {| method := str_of (Dict.get environ "REQUEST_METHOD");
     path := str_of (Dict.get environ "SCRIPT_NAME")
             ++ str_of (Dict.get environ "PATH_INFO");
     META := environ;
     COOKIES := Dict.empty |}.

(** [RequestFactory.generic(method, path, secure=False, QUERY_STRING='')]
    for a [path] without query: the entries [generic] makes for the request,
    its own ['SERVER_PORT'] among them, go over the factory's defaults. *)
Definition RequestFactory_generic (factory : RequestFactory)
    (http_method url_path : string) : HttpRequest :=
  WSGIRequest
    (base_environ factory
       [("PATH_INFO", VStr url_path);
        ("REQUEST_METHOD", VStr http_method);
        ("SERVER_PORT", VStr "80");
        ("wsgi.url_scheme", VStr "http");
        ("QUERY_STRING", VStr "")]).

(** [RequestFactory.get(path)] *)
Definition RequestFactory_get (factory : RequestFactory) (url_path : string)
    : HttpRequest :=
  RequestFactory_generic factory "GET" url_path.

(** A [str] or [None] as a Python value. *)
Definition py_of_optional_str (s : option string) : pyval :=
  match s with
  | Some s => VStr s
  | None => VNone
  end.

Section RequestOrStub.
(** [six.moves.urllib.parse.urlparse], which raises [ValueError] on a URL it
    cannot split. *)
Variable urlparse : string -> result ParseResult.

(** [current_request] is what [crum.get_current_request()] returns. *)
Definition get_request_or_stub (settings : Settings)
    (current_request : option HttpRequest) : result HttpRequest :=
  match current_request with
  | None =>
      let full_url := "http://" ++ SITE_NAME settings in
      result_bind (urlparse full_url) (fun parsed_url =>
      let server_name := hostname parsed_url in
      result_bind (port parsed_url) (fun parsed_port =>
      Ok (RequestFactory_get
            {| defaults :=
                 [("SERVER_NAME", py_of_optional_str server_name);
                  ("SERVER_PORT", VInt (or_else parsed_port 80))] |}
            "/")))
  | Some request => Ok request
  end.
End RequestOrStub.

(** ** safe_get_host *)

Definition isinstance_list_or_tuple (v : pyval) : bool :=
  match v with
  | VList _ | VTuple _ => true
  | _ => false
  end.

Definition is_star (v : pyval) : bool :=
  match v with
  | VStr s => String.eqb s "*"
  | _ => false
  end.

(** ['*' in v] for a list or a tuple [v]. *)
Definition star_in (v : pyval) : bool :=
  match v with
  | VList l | VTuple l => existsb is_star l
  | _ => false
  end.

Section SafeGetHost.
(** [request.get_host()], which raises [DisallowedHost] on a host it
    rejects. *)
Variable get_host : HttpRequest -> result string.
(** [configuration_helpers.get_value(name, default)] *)
Variable get_value : string -> string -> string.

Definition safe_get_host (settings : Settings) (request : HttpRequest)
    : result string :=
  if isinstance_list_or_tuple (ALLOWED_HOSTS settings)
     && negb (star_in (ALLOWED_HOSTS settings))
  then get_host request
  else Ok (get_value "site_domain" (SITE_NAME settings)).
End SafeGetHost.

(** ** course_id_from_url *)

Section CourseIdFromUrl.
Variable CourseKey : Type.
(** A match object of [COURSE_REGEX]; the pattern is built from
    [settings.COURSE_ID_PATTERN]. *)
Variable Match : Type.
(** [COURSE_REGEX.match(url)] *)
Variable COURSE_REGEX_match : string -> option Match.
(** [match.group('course_id')]: [None] when the group took no part in the
    match. *)
Variable group_course_id : Match -> option string.
(** [CourseKey.from_string] *)
Variable CourseKey_from_string : string -> result CourseKey.

(** [not url] *)
Definition falsy (url : option string) : bool :=
  match url with
  | None => true
  | Some s => String.eqb s ""
  end.

Definition course_id_from_url (url : option string)
    : result (option CourseKey) :=
  if falsy url then Ok None
  else
    match url with
    | None => Ok None
    | Some u =>
        match COURSE_REGEX_match u with
        | None => Ok None
        | Some m =>
            match group_course_id m with
            | None => Ok None
            | Some course_id =>
                try_except
                  (result_bind (CourseKey_from_string course_id)
                     (fun key => Ok (Some key)))
                  InvalidKeyError
                  (Ok None)
            end
        end
    end.
End CourseIdFromUrl.

(** ** CookieMonitoringMiddleware *)

(** What [process_request] does to the outside world. *)
Inductive event : Type :=
| ReadCookies
| SetCustomAttribute (key : string) (value : pyval)
| LogDebug (fmt : string) (args : list pyval).

(** The world a middleware call runs in: the state of the
    [request_utils.capture_cookie_sizes] waffle flag, the request object the
    call is given, and the events emitted so far (oldest first). *)
Record World : Type := {
  capture_cookie_sizes : bool;
  request : HttpRequest;
  trace : list event
}.

Definition M (A : Type) : Type := World -> result A * World.

Definition ret {A : Type} (a : A) : M A := fun w => (Ok a, w).

Definition bind {A B : Type} (c : M A) (k : A -> M B) : M B :=
  fun w =>
    match c w with
    | (Ok a, w') => k a w'
    | (Raise e, w') => (Raise e, w')
    end.

Definition lift {A : Type} (r : result A) : M A := fun w => (r, w).

Definition emit (e : event) : M unit :=
  fun w =>
    (Ok tt, {| capture_cookie_sizes := capture_cookie_sizes w;
               request := request w;
               trace := trace w ++ [e] |}).

Notation "x <- c1 ;; c2" := (bind c1 (fun x => c2))
  (at level 61, c1 at next level, right associativity).
Notation "c1 ;; c2" := (bind c1 (fun _ => c2))
  (at level 61, right associativity).

(** [CAPTURE_COOKIE_SIZES.is_enabled()] *)
Definition CAPTURE_COOKIE_SIZES_is_enabled : M bool :=
  fun w => (Ok (capture_cookie_sizes w), w).

(** [request.COOKIES] *)
Definition request_COOKIES : M (Dict.t string) :=
  emit ReadCookies ;; fun w => (Ok (COOKIES (request w)), w).

Definition set_custom_attribute (key : string) (value : pyval) : M unit :=
  emit (SetCustomAttribute key value).

Definition log_debug (fmt : string) (args : list pyval) : M unit :=
  emit (LogDebug fmt args).

(** [for x in l: body(x)] *)
Fixpoint for_each {A : Type} (l : list A) (body : A -> M unit) : M unit :=
  match l with
  | [] => ret tt
  | x :: rest => body x ;; for_each rest body
  end.

Definition is_separator (c : ascii) : bool :=
  (Ascii.eqb c "." || Ascii.eqb c "_")%char.

(** [re.split('[._]', name, 1)[0]] *)
Fixpoint grouping_name (name : string) : string :=
  match name with
  | EmptyString => EmptyString
  | String c rest =>
      if is_separator c then EmptyString else String c (grouping_name rest)
  end.

(** [if grouping_name and grouping_name != name] *)
Definition in_group (name : string) : bool :=
  negb (String.eqb (grouping_name name) "")
  && negb (String.eqb (grouping_name name) name).

(** The body of the loop over [request.COOKIES.items()], on the pair
    [(cookie_names_to_size, cookie_groups_to_size)]. *)
Definition cookie_loop_body (acc : Dict.t Z * Dict.t Z)
    (item : string * string) : Dict.t Z * Dict.t Z :=
  let '(cookie_names_to_size, cookie_groups_to_size) := acc in
  let '(name, value) := item in
  let cookie_size := len value in
  let cookie_names_to_size := Dict.set cookie_names_to_size name cookie_size in
  let grouping_name := grouping_name name in
  if in_group name then
    (cookie_names_to_size,
     Dict.set cookie_groups_to_size grouping_name
       (Dict.get_default cookie_groups_to_size grouping_name 0 + cookie_size))
  else (cookie_names_to_size, cookie_groups_to_size).

Definition cookie_sizes (cookies : Dict.t string) : Dict.t Z * Dict.t Z :=
  fold_left cookie_loop_body (Dict.items cookies) (Dict.empty, Dict.empty).

(** [max(d, key=lambda name: d[name])] followed by [d[...]] of the result. *)
Definition max_entry (d : Dict.t Z) : result (string * Z) :=
  result_bind (py_max (Dict.keys d) (fun name => Dict.index d name))
    (fun max_name =>
  result_bind (Dict.index d max_name) (fun max_size =>
  Ok (max_name, max_size))).

Definition group_attribute_name (name : string) : string :=
  "cookies." ++ name ++ ".group.size".

Definition process_request : M (option HttpResponse) :=
  enabled <- CAPTURE_COOKIE_SIZES_is_enabled ;;
  if negb enabled then ret None
  else
    cookies <- request_COOKIES ;;
    let '(cookie_names_to_size, cookie_groups_to_size) := cookie_sizes cookies in
    max_cookie <- lift (max_entry cookie_names_to_size) ;;
    let '(max_cookie_name, max_cookie_size) := max_cookie in
    max_group_cookie <- lift (max_entry cookie_groups_to_size) ;;
    let '(max_group_cookie_name, max_group_cookie_size) :=
      if snd max_group_cookie <? max_cookie_size
      then (max_cookie_name, max_cookie_size)
      else max_group_cookie in
    for_each (Dict.items cookie_groups_to_size) (fun '(name, size) =>
      let attribute_name := group_attribute_name name in
      set_custom_attribute attribute_name (VInt size) ;;
      log_debug "%s = %d" [VStr attribute_name; VInt size]) ;;
    set_custom_attribute "cookies.max.name" (VStr max_cookie_name) ;;
    set_custom_attribute "cookies.max.size" (VInt max_cookie_size) ;;
    set_custom_attribute "cookies.max.group.name" (VStr max_group_cookie_name) ;;
    set_custom_attribute "cookies.max.group.size" (VInt max_group_cookie_size) ;;
    let total_cookie_size := py_sum (Dict.values cookie_names_to_size) in
    set_custom_attribute "cookies_total_size" (VInt total_cookie_size) ;;
    log_debug "cookies_total_size = %d" [VInt total_cookie_size] ;;
    ret None.

(** The value an attribute has after a run: the last one set wins. *)
Fixpoint reported (key : string) (evs : list event) : option pyval :=
  match evs with
  | [] => None
  | e :: rest =>
      match reported key rest with
      | Some v => Some v
      | None =>
          match e with
          | SetCustomAttribute k v => if String.eqb k key then Some v else None
          | _ => None
          end
      end
  end.

(** The events a run starting in [w] and ending in [w'] has added. *)
Definition emitted (w w' : World) : list event :=
  skipn (List.length (trace w)) (trace w').

Definition world_of (flag : bool) (cookies : Dict.t string) : World :=
  {| capture_cookie_sizes := flag;
     request := {| method := "GET"; path := "/";
                   META := [("SERVER_NAME", VStr "testserver");
                            ("SERVER_PORT", VStr "80")];
                   COOKIES := cookies |};
     trace := [] |}.

(** A request with two braze-style cookies in the group [ab], a session
    cookie that is in no group, and a cookie whose name starts with a
    separator. *)
Definition sample_cookies : Dict.t string :=
  [("ab_x", "123"); ("ab.y", "4567"); ("sessionid", "12345678"); ("_ga", "1")].

(** What [urlparse] gives for the site name ["edx.example.com:8000"]. *)
Definition urlparse_sample (url : string) : result ParseResult :=
  if String.eqb url "http://edx.example.com:8000"
  then Ok {| hostname := Some "edx.example.com"; port := Ok (Some 8000) |}
  else Ok {| hostname := None; port := Ok None |}.

Definition sample_settings : Settings :=
  {| SITE_NAME := "edx.example.com:8000";
     ALLOWED_HOSTS := VList [VStr "edx.example.com"] |}.

(** A request with two groups of the same summed size, [b] recorded before
    [a], and no cookie larger than either. *)
Definition sample_tied_cookies : Dict.t string :=
  [("b_1", "12345"); ("a_1", "123"); ("a_2", "45"); ("c", "1")].

(** *** A stand-in for the course pattern and the key parser

    The match of [COURSE_REGEX] when [settings.COURSE_ID_PATTERN] is the
    pattern [(?P<course_id>[^/+]+(/|\+)[^/+]+(/|\+)[^/?]+)], whose
    [course_id] group takes part in every match, and a parser of the keys
    [course-v1:org+course+run] and [org/course/run]. *)

Fixpoint take_while (p : ascii -> bool) (s : string) : string * string :=
  match s with
  | EmptyString => (EmptyString, EmptyString)
  | String c rest =>
      if p c then let '(taken, remaining) := take_while p rest in
                  (String c taken, remaining)
      else (EmptyString, s)
  end.

Definition is_slash_or_plus (c : ascii) : bool :=
  (Ascii.eqb c "/" || Ascii.eqb c "+")%char.

Definition is_slash_or_question (c : ascii) : bool :=
  (Ascii.eqb c "/" || Ascii.eqb c "?")%char.

Definition is_digit (c : ascii) : bool :=
  ((48 <=? nat_of_ascii c) && (nat_of_ascii c <=? 57))%nat.

(** [[^/+]+(/|\+)[^/+]+(/|\+)[^/?]+] at the start of [s]. *)
Definition sample_course_id (s : string) : option string :=
  let '(org, rest1) := take_while (fun c => negb (is_slash_or_plus c)) s in
  match rest1 with
  | String sep1 rest1' =>
      let '(course, rest2) :=
        take_while (fun c => negb (is_slash_or_plus c)) rest1' in
      match rest2 with
      | String sep2 rest2' =>
          let '(run, _) :=
            take_while (fun c => negb (is_slash_or_question c)) rest2' in
          if String.eqb org "" || String.eqb course "" || String.eqb run ""
          then None
          else Some (org ++ String sep1 (course ++ String sep2 run))
      | EmptyString => None
      end
  | EmptyString => None
  end.

(** [v[0-9]+/[^/]+] at the start of [s], which the pattern refuses. *)
Definition sample_api_version (s : string) : bool :=
  match s with
  | String "v" rest =>
      let '(digits, rest') := take_while is_digit rest in
      negb (String.eqb digits "")
      && match rest' with
         | String "/" (String c _) => negb (Ascii.eqb c "/")
         | _ => false
         end
  | _ => false
  end.

(** [^(.*?/courses/)(?!v[0-9]+/[^/]+)(?P<course_id>...)]: the first
    ["/courses/"] of the line that a course id follows; the value is the
    [course_id] group. *)
Fixpoint sample_match (url : string) : option string :=
  let here :=
    if String.prefix "/courses/" url
    then let rest := String.substring 9 (String.length url - 9) url in
         if sample_api_version rest then None else sample_course_id rest
    else None in
  match here with
  | Some course_id => Some course_id
  | None =>
      match url with
      | EmptyString => None
      | String c rest =>
          if Ascii.eqb c "010" then None else sample_match rest
      end
  end.

Definition sample_group (m : string) : option string := Some m.

Inductive SampleCourseKey : Type :=
| CourseLocator (org course run : string) (deprecated : bool).

(** The parts of [s] between the occurrences of [sep]. *)
Fixpoint split_on (sep : ascii) (s : string) : list string :=
  match s with
  | EmptyString => [EmptyString]
  | String c rest =>
      if Ascii.eqb c sep then EmptyString :: split_on sep rest
      else match split_on sep rest with
           | first :: others => String c first :: others
           | [] => [String c EmptyString]
           end
  end.

Definition sample_locator (parts : list string) (deprecated : bool)
    : result SampleCourseKey :=
  match parts with
  | [org; course; run] =>
      if String.eqb org "" || String.eqb course "" || String.eqb run ""
      then Raise InvalidKeyError
      else Ok (CourseLocator org course run deprecated)
  | _ => Raise InvalidKeyError
  end.

Definition sample_from_string (s : string) : result SampleCourseKey :=
  if String.prefix "course-v1:" s
  then sample_locator
         (split_on "+" (String.substring 10 (String.length s - 10) s)) false
  else sample_locator (split_on "/" s) true.

(** ** Vocabulary of the statements *)

(** [w] with the events [evs] added to its trace. *)
Definition add_events (w : World) (evs : list event) : World :=
  {| capture_cookie_sizes := capture_cookie_sizes w;
     request := request w;
     trace := trace w ++ evs |}.

(** The events of the loop over [cookie_groups_to_size.items()]. *)
Definition group_events (groups : Dict.t Z) : list event :=
  flat_map (fun item : string * Z =>
              [SetCustomAttribute (group_attribute_name (fst item)) (VInt (snd item));
               LogDebug "%s = %d" [VStr (group_attribute_name (fst item)); VInt (snd item)]])
           groups.

(** The events that follow the loop. *)
Definition summary_events (max_cookie_name : string) (max_cookie_size : Z)
    (max_group_cookie_name : string) (max_group_cookie_size : Z)
    (total_cookie_size : Z) : list event :=
  [SetCustomAttribute "cookies.max.name" (VStr max_cookie_name);
   SetCustomAttribute "cookies.max.size" (VInt max_cookie_size);
   SetCustomAttribute "cookies.max.group.name" (VStr max_group_cookie_name);
   SetCustomAttribute "cookies.max.group.size" (VInt max_group_cookie_size);
   SetCustomAttribute "cookies_total_size" (VInt total_cookie_size);
   LogDebug "cookies_total_size = %d" [VInt total_cookie_size]].

(** The cookie [name] adds its size to the group [g]. *)
Definition member_of (g : string) (name : string) : bool :=
  in_group name && String.eqb (grouping_name name) g.

(** The summed size of the cookies of the request that are in group [g]. *)
Fixpoint group_total (g : string) (cookies : list (string * string)) : Z :=
  match cookies with
  | [] => 0
  | (name, value) :: rest =>
      (if member_of g name then len value else 0) + group_total g rest
  end.

Definition is_group (g : string) (cookies : list (string * string)) : bool :=
  existsb (fun item => member_of g (fst item)) cookies.

(** Some cookie of the request is in a group. *)
Definition has_group (cookies : list (string * string)) : bool :=
  existsb (fun item => in_group (fst item)) cookies.

(** The entry [cookie_names_to_size] gets for a cookie. *)
Definition size_entry (item : string * string) : string * Z :=
  (fst item, len (snd item)).

(** The summed size of all the cookies of the request. *)
Fixpoint total_size (cookies : list (string * string)) : Z :=
  match cookies with
  | [] => 0
  | (_, value) :: rest => len value + total_size rest
  end.

(** [(name, size)] is an entry of [d] that no entry of [d] exceeds. *)
Definition largest_entry (d : Dict.t Z) (name : string) (size : Z) : Prop :=
  Dict.get d name = Some size /\
  forall k v, Dict.get d k = Some v -> v <= size.

(** [(name, size)] is a cookie of the request that is as large as any. *)
Definition largest_cookie (cookies : list (string * string)) (name : string)
    (size : Z) : Prop :=
  (exists value, In (name, value) cookies /\ len value = size) /\
  forall n v, In (n, v) cookies -> len v <= size.

(** [g] is a group of the request whose summed size is as large as any. *)
Definition largest_group (cookies : list (string * string)) (g : string)
    (size : Z) : Prop :=
  is_group g cookies = true /\ group_total g cookies = size /\
  forall g', is_group g' cookies = true -> group_total g' cookies <= size.

(** [w] after other events than its own have been emitted. *)
Definition with_trace (w : World) (prior : list event) : World :=
  {| capture_cookie_sizes := capture_cookie_sizes w;
     request := request w;
     trace := prior |}.

(** The attributes set once per request, after the groups. *)
Definition summary_keys : list string :=
  ["cookies.max.name"; "cookies.max.size"; "cookies.max.group.name";
   "cookies.max.group.size"; "cookies_total_size"].

(** [ALLOWED_HOSTS] is a list or a tuple without ['*']. *)
Definition restricts_hosts (v : pyval) : Prop :=
  exists l, (v = VList l \/ v = VTuple l) /\ ~ In (VStr "*") l.

(** [name] has no ['.'] and no ['_']. *)
Fixpoint no_separator (name : string) : bool :=
  match name with
  | EmptyString => true
  | String c rest => negb (is_separator c) && no_separator rest
  end.

(** ** Vocabulary of the further statements *)

(** [(name, size)] is the first of the entries of [d] with the largest size:
    the entries before it are strictly smaller, those after it are no
    larger. *)
Definition first_largest_entry (d : Dict.t Z) (name : string) (size : Z)
    : Prop :=
  exists before after,
    d = (before ++ (name, size) :: after)%list /\
    (forall k v, In (k, v) before -> v < size) /\
    (forall k v, In (k, v) after -> v <= size).

(** The cookie [(name, value)] is the first of the largest cookies of the
    request. *)
Definition first_largest_cookie (cookies : list (string * string))
    (name value : string) : Prop :=
  exists before after,
    cookies = (before ++ (name, value) :: after)%list /\
    (forall n v, In (n, v) before -> len v < len value) /\
    (forall n v, In (n, v) after -> len v <= len value).

Definition is_attribute (e : event) : bool :=
  match e with
  | SetCustomAttribute _ _ => true
  | _ => false
  end.

(** How many times [set_custom_attribute] was called. *)
Definition attribute_count (evs : list event) : nat :=
  List.length (filter is_attribute evs).

(** The summed size of the cookies of the request that are in some group. *)
Fixpoint grouped_size (cookies : list (string * string)) : Z :=
  match cookies with
  | [] => 0
  | (name, value) :: rest =>
      (if in_group name then len value else 0) + grouped_size rest
  end.

(** How many cookies of the request are in some group. *)
Definition grouped_count (cookies : list (string * string)) : nat :=
  List.length (filter (fun item => in_group (fst item)) cookies).

(** A request with a cookie in the group [max] and a larger group [ab]. *)
Definition sample_max_cookies : Dict.t string :=
  [("max_age", "1"); ("ab_x", "12345")].

(** The cookies of [sample_cookies] in another order. *)
Definition sample_cookies_reordered : Dict.t string :=
  [("ab.y", "4567"); ("ab_x", "123"); ("sessionid", "12345678"); ("_ga", "1")].

(** The cookies of [sample_cookies] with other values of the same
    lengths. *)
Definition sample_cookies_other_values : Dict.t string :=
  [("ab_x", "abc"); ("ab.y", "defg"); ("sessionid", "hijklmno"); ("_ga", "p")].

(** The elements of [l] in the order of their first occurrence. *)
Fixpoint first_occurrences (l : list string) : list string :=
  match l with
  | [] => []
  | x :: rest =>
      x :: filter (fun y => negb (String.eqb x y)) (first_occurrences rest)
  end.

(** The grouping prefixes of the grouped cookies, in the request's order. *)
Definition grouping_names (cookies : list (string * string)) : list string :=
  map grouping_name (filter in_group (map fst cookies)).

(** * Properties *)

(** ** Dictionaries *)

Lemma get_set (V : Type) (d : Dict.t V) (k k' : string) (v : V) :
  Dict.get (Dict.set d k v) k' =
  if String.eqb k k' then Some v else Dict.get d k'.
Proof.
  induction d as [|[k0 v0] d IH]; simpl.
  - reflexivity.
  - destruct (String.eqb k0 k) eqn:E0; simpl.
    + apply String.eqb_eq in E0; subst k0.
      destruct (String.eqb k k'); reflexivity.
    + destruct (String.eqb k0 k') eqn:E1.
      * apply String.eqb_eq in E1; subst k0. now rewrite String.eqb_sym, E0.
      * apply IH.
Qed.

Lemma get_in_keys (V : Type) (d : Dict.t V) (k : string) :
  In k (Dict.keys d) -> exists v, Dict.get d k = Some v.
Proof.
  induction d as [|[k0 v0] d IH]; simpl; [tauto|].
  intros [->|H].
  - rewrite String.eqb_refl. eauto.
  - destruct (String.eqb k0 k); eauto.
Qed.

Lemma get_some_in (V : Type) (d : Dict.t V) (k : string) (v : V) :
  Dict.get d k = Some v -> In (k, v) d.
Proof.
  induction d as [|[k0 v0] d IH]; simpl; [discriminate|].
  destruct (String.eqb k0 k) eqn:E.
  - apply String.eqb_eq in E. intros [= ->]. subst. now left.
  - auto.
Qed.

Lemma get_not_in_keys (V : Type) (d : Dict.t V) (k : string) :
  ~ In k (Dict.keys d) -> Dict.get d k = None.
Proof.
  induction d as [|[k0 v0] d IH]; simpl; [reflexivity|].
  intros H. destruct (String.eqb k0 k) eqn:E.
  - apply String.eqb_eq in E. tauto.
  - tauto.
Qed.

Lemma get_nodup_in (V : Type) (d : Dict.t V) (k : string) (v : V) :
  Dict.well_formed d -> In (k, v) d -> Dict.get d k = Some v.
Proof.
  unfold Dict.well_formed.
  induction d as [|[k0 v0] d IH]; simpl; [tauto|].
  intros Hnd [H|H]; inversion Hnd as [|? ? Hnotin Hnd']; subst.
  - inversion H; subst. now rewrite String.eqb_refl.
  - destruct (String.eqb k0 k) eqn:E.
    + apply String.eqb_eq in E; subst k0. exfalso. apply Hnotin.
      change k with (fst (k, v)). now apply in_map.
    + auto.
Qed.

Lemma set_fresh (V : Type) (d : Dict.t V) (k : string) (v : V) :
  ~ In k (Dict.keys d) -> Dict.set d k v = (d ++ [(k, v)])%list.
Proof.
  induction d as [|[k0 v0] d IH]; simpl; [reflexivity|].
  intros H. destruct (String.eqb k0 k) eqn:E.
  - apply String.eqb_eq in E. tauto.
  - rewrite IH; tauto.
Qed.

(** ** max *)

Lemma max_loop_spec (key : string -> result Z) (f : string -> Z) :
  forall (l : list string) (m : string),
    (forall x, In x l -> key x = Ok (f x)) ->
    exists r, max_loop key m (f m) l = Ok r /\ In r (m :: l) /\
              forall x, In x (m :: l) -> f x <= f r.
Proof.
  induction l as [|x l IH]; intros m Hkey; simpl.
  - exists m. repeat split; [now left|]. intros x [->|[]]. lia.
  - rewrite (Hkey x (or_introl eq_refl)).
    assert (Hl : forall y, In y l -> key y = Ok (f y)) by (intros; apply Hkey; now right).
    destruct (f m <? f x) eqn:E.
    + apply Z.ltb_lt in E.
      destruct (IH x Hl) as (r & Hr & Hin & Hmax).
      exists r. split; [exact Hr|]. split.
      * right. exact Hin.
      * intros y [->|Hy]; [|now apply Hmax].
        specialize (Hmax x (or_introl eq_refl)). lia.
    + apply Z.ltb_ge in E.
      destruct (IH m Hl) as (r & Hr & Hin & Hmax).
      exists r. split; [exact Hr|]. split.
      * destruct Hin as [->|Hin]; [now left|right; now right].
      * intros y [->|[->|Hy]].
        -- apply Hmax. now left.
        -- specialize (Hmax m (or_introl eq_refl)). lia.
        -- apply Hmax. now right.
Qed.

Lemma max_entry_empty : max_entry Dict.empty = Raise ValueError.
Proof. reflexivity. Qed.

Lemma max_entry_spec (d : Dict.t Z) :
  d <> [] -> exists name size, max_entry d = Ok (name, size) /\ largest_entry d name size.
Proof.
  intros Hne. destruct d as [|[k0 v0] d]; [congruence|].
  set (D := (k0, v0) :: d) in *.
  set (f := fun k => Dict.get_default D k 0).
  assert (Hkey : forall x, In x (Dict.keys D) -> Dict.index D x = Ok (f x)).
  { intros x Hx. destruct (get_in_keys _ D x Hx) as (v & Hv).
    unfold Dict.index, f, Dict.get_default. now rewrite Hv. }
  destruct (max_loop_spec (fun name => Dict.index D name) f (Dict.keys d) k0)
    as (r & Hr & Hin & Hmax).
  { intros x Hx. apply Hkey. now right. }
  assert (Hrk : In r (Dict.keys D)) by exact Hin.
  destruct (get_in_keys _ D r Hrk) as (s & Hs).
  exists r, s. split.
  - unfold max_entry, py_max. change (Dict.keys D) with (k0 :: Dict.keys d).
    cbv beta iota. rewrite (Hkey k0 (or_introl eq_refl)). rewrite Hr.
    unfold result_bind, Dict.index. now rewrite Hs.
  - split; [exact Hs|]. intros k v Hk.
    assert (Hkin : In k (Dict.keys D)).
    { apply get_some_in in Hk. change k with (fst (k, v)). now apply in_map. }
    specialize (Hmax k Hkin). unfold f, Dict.get_default in Hmax.
    now rewrite Hk, Hs in Hmax.
Qed.

(** ** The loop over the cookies *)

Lemma cookie_loop_body_fst (a g : Dict.t Z) (name value : string) :
  fst (cookie_loop_body (a, g) (name, value)) = Dict.set a name (len value).
Proof. unfold cookie_loop_body. now destruct (in_group name). Qed.

Lemma cookie_loop_body_snd (a g : Dict.t Z) (name value : string) :
  snd (cookie_loop_body (a, g) (name, value)) =
  if in_group name
  then Dict.set g (grouping_name name)
         (Dict.get_default g (grouping_name name) 0 + len value)
  else g.
Proof. unfold cookie_loop_body. now destruct (in_group name). Qed.

Lemma names_fold (l : list (string * string)) :
  forall a g : Dict.t Z,
    NoDup (Dict.keys a ++ Dict.keys l) ->
    fst (fold_left cookie_loop_body l (a, g)) = (a ++ map size_entry l)%list.
Proof.
  induction l as [|[name value] l IH]; intros a g Hnd; cbn [fold_left].
  - simpl. now rewrite app_nil_r.
  - destruct (cookie_loop_body (a, g) (name, value)) as [a' g'] eqn:E.
    assert (Ha' : a' = Dict.set a name (len value)).
    { now rewrite <- cookie_loop_body_fst with (g := g), E. }
    assert (Hfresh : ~ In name (Dict.keys a)).
    { intros Hin. simpl in Hnd. apply NoDup_remove_2 in Hnd.
      apply Hnd. apply in_or_app. now left. }
    rewrite set_fresh in Ha' by exact Hfresh. subst a'.
    rewrite IH.
    + simpl. now rewrite <- app_assoc.
    + unfold Dict.keys in *. rewrite map_app, <- app_assoc. exact Hnd.
Qed.

Lemma names_of_cookies (cookies : Dict.t string) :
  Dict.well_formed cookies ->
  fst (cookie_sizes cookies) = map size_entry cookies.
Proof.
  intros Hwf. unfold cookie_sizes, Dict.items, Dict.empty.
  now rewrite names_fold.
Qed.

Lemma names_nonempty (l : list (string * string)) :
  forall a g : Dict.t Z,
    a <> [] \/ l <> [] -> fst (fold_left cookie_loop_body l (a, g)) <> [].
Proof.
  induction l as [|[name value] l IH]; intros a g H; cbn [fold_left].
  - simpl. destruct H; congruence.
  - destruct (cookie_loop_body (a, g) (name, value)) as [a' g'] eqn:E.
    apply IH. left.
    assert (Ha' : a' = Dict.set a name (len value)).
    { now rewrite <- cookie_loop_body_fst with (g := g), E. }
    subst a'. destruct a as [|[k v] a]; simpl; [discriminate|].
    destruct (String.eqb k name); discriminate.
Qed.

Lemma group_total_no_member (g : string) (l : list (string * string)) :
  is_group g l = false -> group_total g l = 0.
Proof.
  induction l as [|[name value] l IH]; simpl; [reflexivity|].
  intros H. apply orb_false_iff in H as [H1 H2].
  rewrite H1, IH by exact H2. reflexivity.
Qed.

Lemma groups_fold (g : string) (l : list (string * string)) :
  forall a gr : Dict.t Z,
    Dict.get (snd (fold_left cookie_loop_body l (a, gr))) g =
    if is_group g l
    then Some (Dict.get_default gr g 0 + group_total g l)
    else Dict.get gr g.
Proof.
  induction l as [|[name value] l IH]; intros a gr; cbn [fold_left].
  - reflexivity.
  - destruct (cookie_loop_body (a, gr) (name, value)) as [a' gr'] eqn:E.
    assert (Hgr' : gr' = snd (cookie_loop_body (a, gr) (name, value)))
      by now rewrite E.
    rewrite cookie_loop_body_snd in Hgr'.
    rewrite IH. simpl is_group. simpl group_total. unfold member_of.
    destruct (in_group name) eqn:Hin; simpl andb.
    + destruct (String.eqb (grouping_name name) g) eqn:Hg; simpl orb.
      * apply String.eqb_eq in Hg. subst gr'. rewrite Hg.
        unfold Dict.get_default at 1. rewrite !get_set, String.eqb_refl.
        destruct (is_group g l) eqn:Hl.
        -- f_equal. lia.
        -- rewrite group_total_no_member by exact Hl. f_equal. lia.
      * subst gr'. unfold Dict.get_default at 1. rewrite !get_set, Hg.
        reflexivity.
    + subst gr'. reflexivity.
Qed.

(** Each group's recorded size is the sum of the sizes of its cookies, and
    only prefixes with a member are recorded. *)
Lemma groups_of_cookies (cookies : Dict.t string) (g : string) :
  Dict.get (snd (cookie_sizes cookies)) g =
  if is_group g cookies then Some (group_total g cookies) else None.
Proof.
  unfold cookie_sizes, Dict.items. rewrite groups_fold.
  destruct (is_group g cookies); reflexivity.
Qed.

Lemma is_group_has_group (g : string) (l : list (string * string)) :
  is_group g l = true -> has_group l = true.
Proof.
  unfold is_group, has_group. rewrite !existsb_exists.
  intros (item & Hin & Hm). exists item. split; [exact Hin|].
  unfold member_of in Hm. now apply andb_true_iff in Hm as [Hm _].
Qed.

Lemma has_group_is_group (l : list (string * string)) :
  has_group l = true -> exists g, is_group g l = true.
Proof.
  unfold has_group. rewrite existsb_exists. intros (item & Hin & Hm).
  exists (grouping_name (fst item)). unfold is_group. rewrite existsb_exists.
  exists item. split; [exact Hin|]. unfold member_of.
  now rewrite Hm, String.eqb_refl.
Qed.

Lemma groups_empty_iff (cookies : Dict.t string) :
  snd (cookie_sizes cookies) = [] <-> has_group cookies = false.
Proof.
  split.
  - intros Hempty. destruct (has_group cookies) eqn:H; [|reflexivity].
    destruct (has_group_is_group _ H) as (g & Hg).
    pose proof (groups_of_cookies cookies g) as Hget.
    rewrite Hempty, Hg in Hget. discriminate.
  - intros Hno. destruct (snd (cookie_sizes cookies)) as [|[k v] d] eqn:E;
      [reflexivity|].
    pose proof (groups_of_cookies cookies k) as Hget.
    rewrite E in Hget. simpl in Hget. rewrite String.eqb_refl in Hget.
    destruct (is_group k cookies) eqn:Hk; [|discriminate].
    apply is_group_has_group in Hk. congruence.
Qed.

Lemma has_group_nonempty (cookies : Dict.t string) :
  has_group cookies = true -> cookies <> [].
Proof. intros H ->. discriminate. Qed.

Lemma fold_add (l : list Z) : forall acc, fold_left Z.add l acc = acc + py_sum l.
Proof.
  unfold py_sum. induction l as [|x l IH]; intros acc; simpl.
  - lia.
  - rewrite IH, (IH x). lia.
Qed.

Lemma total_of_cookies (cookies : Dict.t string) :
  py_sum (Dict.values (map size_entry cookies)) = total_size cookies.
Proof.
  induction cookies as [|[name value] l IH]; [reflexivity|].
  unfold py_sum, Dict.values in *. simpl. rewrite fold_add.
  unfold py_sum. rewrite IH. reflexivity.
Qed.

(** ** Runs of process_request *)

Lemma add_events_app (w : World) (a b : list event) :
  add_events (add_events w a) b = add_events w (a ++ b).
Proof. unfold add_events; simpl. now rewrite app_assoc. Qed.

Lemma add_events_nil (w : World) : add_events w [] = w.
Proof. destruct w. unfold add_events; simpl. now rewrite app_nil_r. Qed.

Lemma emitted_add_events (w : World) (evs : list event) :
  emitted w (add_events w evs) = evs.
Proof.
  unfold emitted, add_events; simpl.
  induction (trace w) as [|e t IH]; simpl; auto.
Qed.

Lemma for_each_emits (A : Type) (body : A -> M unit) (evs : A -> list event) :
  (forall x w, body x w = (Ok tt, add_events w (evs x))) ->
  forall l w, for_each l body w = (Ok tt, add_events w (flat_map evs l)).
Proof.
  intros Hbody. induction l as [|x l IH]; intros w; simpl.
  - unfold ret. now rewrite add_events_nil.
  - unfold bind. rewrite Hbody, IH, add_events_app. reflexivity.
Qed.

Lemma process_request_disabled (w : World) :
  capture_cookie_sizes w = false -> process_request w = (Ok None, w).
Proof.
  intros H. unfold process_request, bind, CAPTURE_COOKIE_SIZES_is_enabled.
  now rewrite H.
Qed.

(** With the flag on, the call raises whatever either [max] raises, having
    only read the cookies; otherwise it returns [None] after the group
    events and the summary events. *)
Lemma process_request_enabled (w : World) :
  capture_cookie_sizes w = true ->
  let names := fst (cookie_sizes (COOKIES (request w))) in
  let groups := snd (cookie_sizes (COOKIES (request w))) in
  process_request w =
  match max_entry names with
  | Raise e => (Raise e, add_events w [ReadCookies])
  | Ok (max_cookie_name, max_cookie_size) =>
      match max_entry groups with
      | Raise e => (Raise e, add_events w [ReadCookies])
      | Ok (group_name, group_size) =>
          (Ok None,
           add_events w
             (ReadCookies ::
              group_events groups ++
              summary_events max_cookie_name max_cookie_size
                (if group_size <? max_cookie_size
                 then max_cookie_name else group_name)
                (if group_size <? max_cookie_size
                 then max_cookie_size else group_size)
                (py_sum (Dict.values names))))
      end
  end.
Proof.
  intros H names groups. subst names groups.
  unfold process_request, bind at 1, CAPTURE_COOKIE_SIZES_is_enabled.
  rewrite H. cbn [negb].
  unfold request_COOKIES, bind at 1 2, emit. cbn [request].
  fold (add_events w [ReadCookies]).
  destruct (cookie_sizes (COOKIES (request w))) as [names groups].
  cbn [fst snd]. unfold bind at 1, lift at 1.
  destruct (max_entry names) as [[cn cs]|e]; [|reflexivity].
  unfold bind at 1, lift at 1.
  destruct (max_entry groups) as [[gn gs]|e]; [|reflexivity].
  cbn [snd].
  assert (Hloop : forall w0,
    for_each (Dict.items groups)
      (fun '(name, size) =>
         let attribute_name := group_attribute_name name in
         set_custom_attribute attribute_name (VInt size) ;;
         log_debug "%s = %d" [VStr attribute_name; VInt size]) w0
    = (Ok tt, add_events w0 (group_events groups))).
  { intros w0. unfold group_events. apply for_each_emits.
    intros [name size] w1.
    unfold bind, set_custom_attribute, log_debug, emit, add_events; simpl.
    now rewrite <- app_assoc. }
  destruct (gs <? cs);
    unfold bind at 1; rewrite Hloop;
    unfold bind, set_custom_attribute, log_debug, emit, ret, add_events,
      summary_events; simpl;
    rewrite <- !app_assoc; reflexivity.
Qed.

(** ** Reported attributes *)

Lemma reported_app (key : string) (a b : list event) :
  reported key (a ++ b) =
  match reported key b with
  | Some v => Some v
  | None => reported key a
  end.
Proof.
  induction a as [|e a IH]; simpl.
  - now destruct (reported key b).
  - rewrite IH. now destruct (reported key b).
Qed.

Lemma reported_summary (prefix : list event) (cn : string) (cs : Z)
    (gn : string) (gs total : Z) :
  let evs := (prefix ++ summary_events cn cs gn gs total)%list in
  reported "cookies.max.name" evs = Some (VStr cn) /\
  reported "cookies.max.size" evs = Some (VInt cs) /\
  reported "cookies.max.group.name" evs = Some (VStr gn) /\
  reported "cookies.max.group.size" evs = Some (VInt gs) /\
  reported "cookies_total_size" evs = Some (VInt total).
Proof.
  intros evs. subst evs. rewrite !reported_app. repeat split; reflexivity.
Qed.

(** ** Outcome of a run with the flag on *)

Lemma process_request_no_group (w : World) :
  capture_cookie_sizes w = true ->
  has_group (COOKIES (request w)) = false ->
  process_request w = (Raise ValueError, add_events w [ReadCookies]).
Proof.
  intros Hflag Hno. rewrite process_request_enabled by exact Hflag.
  apply groups_empty_iff in Hno. rewrite Hno.
  destruct (fst (cookie_sizes (COOKIES (request w)))) as [|entry names] eqn:E.
  - reflexivity.
  - destruct (max_entry_spec (entry :: names)) as (cn & cs & Hmax & _);
      [discriminate|].
    rewrite Hmax. reflexivity.
Qed.

Lemma process_request_with_group (w : World) :
  capture_cookie_sizes w = true ->
  has_group (COOKIES (request w)) = true ->
  let names := fst (cookie_sizes (COOKIES (request w))) in
  let groups := snd (cookie_sizes (COOKIES (request w))) in
  exists cn cs gn gs,
    max_entry names = Ok (cn, cs) /\ largest_entry names cn cs /\
    max_entry groups = Ok (gn, gs) /\ largest_entry groups gn gs /\
    process_request w =
    (Ok None,
     add_events w
       (ReadCookies ::
        group_events groups ++
        summary_events cn cs
          (if gs <? cs then cn else gn) (if gs <? cs then cs else gs)
          (py_sum (Dict.values names)))).
Proof.
  intros Hflag Hgroup names groups.
  assert (Hnames : names <> []).
  { apply names_nonempty. right. now apply has_group_nonempty. }
  assert (Hgroups : groups <> []).
  { intros Hempty. apply groups_empty_iff in Hempty. congruence. }
  destruct (max_entry_spec names Hnames) as (cn & cs & Hn & Hln).
  destruct (max_entry_spec groups Hgroups) as (gn & gs & Hg & Hlg).
  exists cn, cs, gn, gs. repeat split; try assumption; try apply Hln; try apply Hlg.
  rewrite process_request_enabled by exact Hflag.
  fold names groups. rewrite Hn, Hg. reflexivity.
Qed.

Lemma largest_entry_cookie (cookies : Dict.t string) (cn : string) (cs : Z) :
  Dict.well_formed cookies ->
  largest_entry (map size_entry cookies) cn cs ->
  largest_cookie cookies cn cs.
Proof.
  intros Hwf [Hget Hmax]. split.
  - apply get_some_in in Hget. apply in_map_iff in Hget as ([n v] & Heq & Hin).
    unfold size_entry in Heq; simpl in Heq. inversion Heq; subst.
    exists v. split; [exact Hin|reflexivity].
  - intros n v Hin. apply (Hmax n). apply get_nodup_in.
    + unfold Dict.well_formed, Dict.keys in *. rewrite map_map. exact Hwf.
    + change (n, len v) with (size_entry (n, v)). now apply in_map.
Qed.

Lemma largest_entry_group (cookies : Dict.t string) (gn : string) (gs : Z) :
  largest_entry (snd (cookie_sizes cookies)) gn gs ->
  largest_group cookies gn gs.
Proof.
  intros [Hget Hmax]. rewrite groups_of_cookies in Hget.
  destruct (is_group gn cookies) eqn:Hgn; [|discriminate].
  inversion Hget; subst. split; [exact Hgn|split; [reflexivity|]].
  intros g' Hg'. apply (Hmax g'). rewrite groups_of_cookies, Hg'. reflexivity.
Qed.

Lemma set_keys_nodup (V : Type) (d : Dict.t V) (k : string) (v : V) :
  Dict.well_formed d -> Dict.well_formed (Dict.set d k v).
Proof.
  unfold Dict.well_formed. intros Hwf.
  destruct (in_dec string_dec k (Dict.keys d)) as [Hin|Hout].
  - assert (Hkeys : Dict.keys (Dict.set d k v) = Dict.keys d).
    { clear Hwf. induction d as [|[k0 v0] d IH]; simpl in *; [tauto|].
      destruct (String.eqb k0 k) eqn:E; simpl; [reflexivity|].
      f_equal. apply IH. destruct Hin as [->|Hin]; [|exact Hin].
      now rewrite String.eqb_refl in E. }
    now rewrite Hkeys.
  - rewrite set_fresh by exact Hout. unfold Dict.keys in *. rewrite map_app. simpl.
    apply NoDup_app; [exact Hwf|repeat constructor; auto|].
    intros x Hx [->|[]]. contradiction.
Qed.

Lemma groups_well_formed (cookies : Dict.t string) :
  Dict.well_formed (snd (cookie_sizes cookies)).
Proof.
  unfold cookie_sizes, Dict.items.
  assert (H : forall l (a g : Dict.t Z), Dict.well_formed g ->
            Dict.well_formed (snd (fold_left cookie_loop_body l (a, g)))).
  { induction l as [|[name value] l IH]; intros a g Hwf; cbn [fold_left].
    - exact Hwf.
    - destruct (cookie_loop_body (a, g) (name, value)) as [a' g'] eqn:E.
      apply IH.
      assert (Hg' : g' = snd (cookie_loop_body (a, g) (name, value)))
        by now rewrite E.
      rewrite cookie_loop_body_snd in Hg'. subst g'.
      destruct (in_group name); [now apply set_keys_nodup|exact Hwf]. }
  apply H. constructor.
Qed.

Lemma sample_cookies_well_formed : Dict.well_formed sample_cookies.
Proof.
  unfold Dict.well_formed, sample_cookies. simpl.
  repeat constructor; simpl; intuition discriminate.
Qed.

Lemma with_trace_self (w : World) : with_trace w (trace w) = w.
Proof. now destruct w. Qed.

(** The outcome and the added events of a run depend on the flag and on the
    request only. *)
Lemma process_request_shape (w : World) :
  exists r evs,
    (r = Ok None \/ r = Raise ValueError) /\
    forall prior,
      process_request (with_trace w prior) =
      (r, add_events (with_trace w prior) evs).
Proof.
  destruct (capture_cookie_sizes w) eqn:Hflag.
  - destruct (has_group (COOKIES (request w))) eqn:Hgroup.
    + destruct (process_request_with_group w Hflag Hgroup)
        as (cn & cs & gn & gs & Hn & _ & Hg & _ & _).
      eexists; eexists. split; [left; reflexivity|].
      intros prior. rewrite process_request_enabled by exact Hflag.
      cbn [with_trace request]. rewrite Hn, Hg. reflexivity.
    + exists (Raise ValueError), [ReadCookies]. split; [now right|].
      intros prior. now apply process_request_no_group.
  - exists (Ok None), []. split; [now left|].
    intros prior. rewrite add_events_nil. now apply process_request_disabled.
Qed.

(** ** The claims about CookieMonitoringMiddleware *)

(** C1 (as the code behaves): with the capture flag on, a request without
    cookies makes [process_request] raise [ValueError] from the first [max],
    and a request whose only cookie is in no prefix group makes it raise
    [ValueError] from the second [max]; in both cases nothing is reported. *)
Theorem process_request_raises_without_groups :
  process_request (world_of true []) =
    (Raise ValueError, add_events (world_of true []) [ReadCookies]) /\
  process_request (world_of true [("sessionid", "12345678")]) =
    (Raise ValueError,
     add_events (world_of true [("sessionid", "12345678")]) [ReadCookies]).
Proof. split; reflexivity. Qed.

(** C10: with the capture flag off, [process_request] returns [None] and
    leaves the world as it found it: the cookies are not read, no attribute
    is set and nothing is logged. *)
Theorem process_request_flag_disabled (w : World) :
  capture_cookie_sizes w = false ->
  process_request w = (Ok None, w) /\
  emitted w (snd (process_request w)) = [].
Proof.
  intros Hflag. rewrite process_request_disabled by exact Hflag.
  split; [reflexivity|].
  rewrite <- (add_events_nil w) at 2. cbn [snd]. apply emitted_add_events.
Qed.

Lemma process_request_flag_disabled_witness :
  process_request (world_of false sample_cookies) =
    (Ok None, world_of false sample_cookies) /\
  emitted (world_of false sample_cookies)
    (snd (process_request (world_of false sample_cookies))) = [].
Proof.
  exact (process_request_flag_disabled (world_of false sample_cookies) eq_refl).
Defined.

(** A call of [process_request] leaves the request and the flag as they
    were and only adds events to the trace; it never returns a response (it
    returns [None] or raises [ValueError]); and neither its outcome nor the
    events it adds depend on what earlier calls have left behind. *)
Theorem process_request_frame (w : World) :
  request (snd (process_request w)) = request w /\
  capture_cookie_sizes (snd (process_request w)) = capture_cookie_sizes w /\
  (exists evs, trace (snd (process_request w)) = (trace w ++ evs)%list) /\
  (fst (process_request w) = Ok None \/
   fst (process_request w) = Raise ValueError) /\
  forall prior,
    fst (process_request (with_trace w prior)) = fst (process_request w) /\
    emitted (with_trace w prior) (snd (process_request (with_trace w prior))) =
    emitted w (snd (process_request w)).
Proof.
  destruct (process_request_shape w) as (r & evs & Hr & Hrun).
  pose proof (Hrun (trace w)) as Hw. rewrite with_trace_self in Hw.
  rewrite Hw. cbn [fst snd].
  split; [reflexivity|]. split; [reflexivity|].
  split; [exists evs; reflexivity|]. split; [exact Hr|].
  intros prior. rewrite Hrun. cbn [fst snd].
  split; [reflexivity|]. now rewrite !emitted_add_events.
Qed.

(** What a completed run reports, in terms of the request's cookies. *)
Lemma process_request_reports (w : World) :
  capture_cookie_sizes w = true ->
  Dict.well_formed (COOKIES (request w)) ->
  has_group (COOKIES (request w)) = true ->
  exists cn cs gn gs prefix,
    max_entry (fst (cookie_sizes (COOKIES (request w)))) = Ok (cn, cs) /\
    largest_cookie (COOKIES (request w)) cn cs /\
    largest_group (COOKIES (request w)) gn gs /\
    fst (process_request w) = Ok None /\
    emitted w (snd (process_request w)) =
    (prefix ++
     summary_events cn cs
       (if gs <? cs then cn else gn) (if gs <? cs then cs else gs)
       (total_size (COOKIES (request w))))%list.
Proof.
  intros Hflag Hwf Hgroup.
  destruct (process_request_with_group w Hflag Hgroup)
    as (cn & cs & gn & gs & Hn & Hln & Hg & Hlg & Hrun).
  exists cn, cs, gn, gs,
    (ReadCookies :: group_events (snd (cookie_sizes (COOKIES (request w))))).
  rewrite Hrun. cbn [fst snd]. rewrite emitted_add_events.
  rewrite names_of_cookies in * by exact Hwf.
  rewrite total_of_cookies.
  split; [exact Hn|].
  split; [now apply largest_entry_cookie|].
  split; [now apply largest_entry_group|].
  split; reflexivity.
Qed.

(** C2: when the request has a prefix group, the run completes and the
    reported [cookies.max.group.name] and [cookies.max.group.size] are those
    of a group with the largest summed size, unless the largest single cookie
    is strictly larger, in which case they are that cookie's name and size; on
    equal sizes the group is reported.  The reported size is at least
    [cookies.max.size] and at least every group's summed size. *)
Theorem max_group_reported (w : World) :
  capture_cookie_sizes w = true ->
  Dict.well_formed (COOKIES (request w)) ->
  has_group (COOKIES (request w)) = true ->
  let cookies := COOKIES (request w) in
  let evs := emitted w (snd (process_request w)) in
  exists cn cs gn gs,
    largest_cookie cookies cn cs /\
    largest_group cookies gn gs /\
    fst (process_request w) = Ok None /\
    reported "cookies.max.size" evs = Some (VInt cs) /\
    (gs < cs ->
     reported "cookies.max.group.name" evs = Some (VStr cn) /\
     reported "cookies.max.group.size" evs = Some (VInt cs)) /\
    (cs <= gs ->
     reported "cookies.max.group.name" evs = Some (VStr gn) /\
     reported "cookies.max.group.size" evs = Some (VInt gs)) /\
    exists size,
      reported "cookies.max.group.size" evs = Some (VInt size) /\
      cs <= size /\
      forall g, is_group g cookies = true -> group_total g cookies <= size.
Proof.
  intros Hflag Hwf Hgroup cookies evs.
  destruct (process_request_reports w Hflag Hwf Hgroup)
    as (cn & cs & gn & gs & prefix & _ & Hlc & Hlg & Hok & Hevs).
  subst evs. rewrite Hevs.
  destruct (reported_summary prefix cn cs
              (if gs <? cs then cn else gn) (if gs <? cs then cs else gs)
              (total_size (COOKIES (request w))))
    as (_ & Hsize & Hgname & Hgsize & _).
  exists cn, cs, gn, gs.
  split; [exact Hlc|]. split; [exact Hlg|]. split; [exact Hok|].
  split; [exact Hsize|]. rewrite Hgname, Hgsize.
  destruct Hlg as (_ & _ & Hall).
  split; [|split].
  - intros Hlt. apply Z.ltb_lt in Hlt. now rewrite Hlt.
  - intros Hle. apply Z.ltb_ge in Hle. now rewrite Hle.
  - exists (if gs <? cs then cs else gs). split; [reflexivity|].
    destruct (gs <? cs) eqn:E.
    + apply Z.ltb_lt in E. split; [lia|].
      intros g Hg. specialize (Hall g Hg). fold cookies in Hall. lia.
    + apply Z.ltb_ge in E. split; [lia|]. intros g Hg. now apply Hall.
Qed.

Lemma max_group_reported_witness :
  let w := world_of true sample_cookies in
  let cookies := COOKIES (request w) in
  let evs := emitted w (snd (process_request w)) in
  exists cn cs gn gs,
    largest_cookie cookies cn cs /\
    largest_group cookies gn gs /\
    fst (process_request w) = Ok None /\
    reported "cookies.max.size" evs = Some (VInt cs) /\
    (gs < cs ->
     reported "cookies.max.group.name" evs = Some (VStr cn) /\
     reported "cookies.max.group.size" evs = Some (VInt cs)) /\
    (cs <= gs ->
     reported "cookies.max.group.name" evs = Some (VStr gn) /\
     reported "cookies.max.group.size" evs = Some (VInt gs)) /\
    exists size,
      reported "cookies.max.group.size" evs = Some (VInt size) /\
      cs <= size /\
      forall g, is_group g cookies = true -> group_total g cookies <= size.
Proof.
  exact (max_group_reported (world_of true sample_cookies) eq_refl
           sample_cookies_well_formed eq_refl).
Defined.

(** X17: for every non-empty cookie mapping the largest-cookie computation
    succeeds, its size is the maximum of the lengths of the cookie values and
    its name is a cookie attaining it; whatever the run reports as
    [cookies.max.size] and [cookies.max.name] are these two values, and they
    are reported whenever the request has a prefix group. *)
Theorem max_cookie_reported (w : World) :
  capture_cookie_sizes w = true ->
  Dict.well_formed (COOKIES (request w)) ->
  COOKIES (request w) <> [] ->
  let cookies := COOKIES (request w) in
  let evs := emitted w (snd (process_request w)) in
  exists cn cs,
    max_entry (fst (cookie_sizes cookies)) = Ok (cn, cs) /\
    largest_cookie cookies cn cs /\
    (forall v, reported "cookies.max.size" evs = Some v -> v = VInt cs) /\
    (forall v, reported "cookies.max.name" evs = Some v -> v = VStr cn) /\
    (has_group cookies = true ->
     fst (process_request w) = Ok None /\
     reported "cookies.max.size" evs = Some (VInt cs) /\
     reported "cookies.max.name" evs = Some (VStr cn)).
Proof.
  intros Hflag Hwf Hne cookies evs. subst cookies evs.
  destruct (has_group (COOKIES (request w))) eqn:Hgroup.
  - destruct (process_request_reports w Hflag Hwf Hgroup)
      as (cn & cs & gn & gs & prefix & Hmax & Hlc & _ & Hok & Hevs).
    rewrite Hevs.
    destruct (reported_summary prefix cn cs
                (if gs <? cs then cn else gn) (if gs <? cs then cs else gs)
                (total_size (COOKIES (request w))))
      as (Hname & Hsize & _).
    exists cn, cs. rewrite Hname, Hsize.
    split; [exact Hmax|]. split; [exact Hlc|].
    split; [intros v Hv; congruence|]. split; [intros v Hv; congruence|].
    intros _. split; [exact Hok|]. split; reflexivity.
  - assert (Hnames : fst (cookie_sizes (COOKIES (request w))) <> []).
    { apply names_nonempty. now right. }
    destruct (max_entry_spec _ Hnames) as (cn & cs & Hmax & Hl).
    exists cn, cs. rewrite process_request_no_group by assumption.
    cbn [snd]. rewrite emitted_add_events. split; [exact Hmax|]. split.
    + apply largest_entry_cookie; [exact Hwf|].
      now rewrite <- names_of_cookies.
    + split; [intros; discriminate|]. split; intros; discriminate.
Qed.

Lemma max_cookie_reported_witness :
  let w := world_of true sample_cookies in
  let cookies := COOKIES (request w) in
  let evs := emitted w (snd (process_request w)) in
  exists cn cs,
    max_entry (fst (cookie_sizes cookies)) = Ok (cn, cs) /\
    largest_cookie cookies cn cs /\
    (forall v, reported "cookies.max.size" evs = Some v -> v = VInt cs) /\
    (forall v, reported "cookies.max.name" evs = Some v -> v = VStr cn) /\
    (has_group cookies = true ->
     fst (process_request w) = Ok None /\
     reported "cookies.max.size" evs = Some (VInt cs) /\
     reported "cookies.max.name" evs = Some (VStr cn)).
Proof.
  refine (max_cookie_reported (world_of true sample_cookies) eq_refl
            sample_cookies_well_formed _).
  discriminate.
Defined.

(** C7: the total the run computes is the sum of the lengths of the values
    of all the cookies of the request, each counted once, in a group or not;
    whatever the run reports as [cookies_total_size] is this sum, and it is
    reported whenever the request has a prefix group. *)
Theorem total_size_reported (w : World) :
  capture_cookie_sizes w = true ->
  Dict.well_formed (COOKIES (request w)) ->
  let cookies := COOKIES (request w) in
  let evs := emitted w (snd (process_request w)) in
  py_sum (Dict.values (fst (cookie_sizes cookies))) = total_size cookies /\
  (forall v, reported "cookies_total_size" evs = Some v ->
             v = VInt (total_size cookies)) /\
  (has_group cookies = true ->
   fst (process_request w) = Ok None /\
   reported "cookies_total_size" evs = Some (VInt (total_size cookies))).
Proof.
  intros Hflag Hwf cookies evs. subst cookies evs.
  split; [now rewrite names_of_cookies, total_of_cookies|].
  destruct (has_group (COOKIES (request w))) eqn:Hgroup.
  - destruct (process_request_reports w Hflag Hwf Hgroup)
      as (cn & cs & gn & gs & prefix & _ & _ & _ & Hok & Hevs).
    rewrite Hevs.
    destruct (reported_summary prefix cn cs
                (if gs <? cs then cn else gn) (if gs <? cs then cs else gs)
                (total_size (COOKIES (request w))))
      as (_ & _ & _ & _ & Htotal).
    rewrite Htotal. split; [intros v Hv; congruence|].
    intros _. split; [exact Hok|reflexivity].
  - rewrite process_request_no_group by assumption.
    cbn [snd]. rewrite emitted_add_events.
    split; intros; discriminate.
Qed.

Lemma total_size_reported_witness :
  let w := world_of true sample_cookies in
  let cookies := COOKIES (request w) in
  let evs := emitted w (snd (process_request w)) in
  py_sum (Dict.values (fst (cookie_sizes cookies))) = total_size cookies /\
  (forall v, reported "cookies_total_size" evs = Some v ->
             v = VInt (total_size cookies)) /\
  (has_group cookies = true ->
   fst (process_request w) = Ok None /\
   reported "cookies_total_size" evs = Some (VInt (total_size cookies))).
Proof.
  exact (total_size_reported (world_of true sample_cookies) eq_refl
           sample_cookies_well_formed).
Defined.

(** C6 (as the code behaves): for the non-empty request whose only cookie is
    [sessionid], the largest cookie is computed (name [sessionid], size [8])
    but the run raises [ValueError] at the [max] over the empty group mapping
    before anything is reported: neither [cookies.max.size] nor
    [cookies.max.name] is set. *)
Theorem max_cookie_unreported_without_group :
  let w := world_of true [("sessionid", "12345678")] in
  let evs := emitted w (snd (process_request w)) in
  COOKIES (request w) <> [] /\
  max_entry (fst (cookie_sizes (COOKIES (request w)))) = Ok ("sessionid", 8) /\
  fst (process_request w) = Raise ValueError /\
  reported "cookies.max.size" evs = None /\
  reported "cookies.max.name" evs = None.
Proof.
  cbv zeta. split; [discriminate|]. repeat split; reflexivity.
Qed.

(** C9 (as the code behaves): [process_request] does not return [None] for
    every request: with the flag on, a request without cookies makes it raise
    [ValueError], which cuts the processing of the request short. *)
Theorem process_request_not_always_None :
  fst (process_request (world_of true [])) = Raise ValueError /\
  ~ (forall w, fst (process_request w) = Ok None).
Proof.
  split; [reflexivity|].
  intros H. specialize (H (world_of true [])). discriminate.
Qed.

(** ** Grouping *)

Lemma grouping_name_prefix (name : string) :
  no_separator (grouping_name name) = true /\
  exists rest,
    name = grouping_name name ++ rest /\
    (rest = "" \/ exists c rest', rest = String c rest' /\ is_separator c = true).
Proof.
  induction name as [|c name [IHno (rest & IHeq & IHrest)]]; simpl.
  - split; [reflexivity|]. exists "". split; [reflexivity|now left].
  - destruct (is_separator c) eqn:E; simpl.
    + split; [reflexivity|]. exists (String c name).
      split; [reflexivity|]. right. now exists c, name.
    + rewrite E, IHno. split; [reflexivity|].
      exists rest. split; [now rewrite <- IHeq|exact IHrest].
Qed.


Lemma member_of_iff (g name : string) :
  member_of g name = true <->
  grouping_name name = g /\ g <> "" /\ g <> name.
Proof.
  unfold member_of, in_group.
  rewrite !andb_true_iff, !negb_true_iff, !String.eqb_neq, String.eqb_eq.
  split.
  - intros [[H1 H2] H3]. subst g. auto.
  - intros (H1 & H2 & H3). subst g. auto.
Qed.

Lemma in_group_events (groups : Dict.t Z) (key : string) (v : pyval) :
  In (SetCustomAttribute key v) (group_events groups) <->
  exists g size, In (g, size) groups /\
                 key = group_attribute_name g /\ v = VInt size.
Proof.
  unfold group_events. rewrite in_flat_map. split.
  - intros ([g size] & Hin & Hev). simpl in Hev.
    destruct Hev as [Hev|[Hev|[]]]; [|discriminate].
    inversion Hev; subst. now exists g, size.
  - intros (g & size & Hin & -> & ->). exists (g, size).
    split; [exact Hin|now left].
Qed.



(** ** safe_get_host *)

Lemma is_star_iff (v : pyval) : is_star v = true <-> v = VStr "*".
Proof.
  destruct v; simpl; split; try discriminate.
  - intros H. apply String.eqb_eq in H. now subst.
  - intros [= ->]. reflexivity.
Qed.

Lemma star_in_list (l : list pyval) :
  existsb is_star l = true <-> In (VStr "*") l.
Proof.
  rewrite existsb_exists. split.
  - intros (x & Hin & Hx). apply is_star_iff in Hx. now subst.
  - intros Hin. exists (VStr "*"). split; [exact Hin|reflexivity].
Qed.

Lemma restricts_hosts_iff (v : pyval) :
  isinstance_list_or_tuple v && negb (star_in v) = true <-> restricts_hosts v.
Proof.
  unfold restricts_hosts. split.
  - intros H. apply andb_true_iff in H as [Hinst Hstar].
    apply negb_true_iff in Hstar.
    destruct v; try discriminate; exists l; simpl in Hstar;
      (split; [auto|]); intros Hin; apply star_in_list in Hin; congruence.
  - intros (l & [->| ->] & Hnot); simpl;
      destruct (existsb is_star l) eqn:E; try reflexivity;
      apply star_in_list in E; contradiction.
Qed.

(** C4: [safe_get_host] gives what [request.get_host()] gives exactly when
    [ALLOWED_HOSTS] is a list or a tuple without ['*'], and in every other
    case it gives the site-configured ['site_domain'], asked for with
    [SITE_NAME] as its default, whatever [get_host()] would have given. *)
Theorem safe_get_host_spec (settings : Settings) (request : HttpRequest) :
  (restricts_hosts (ALLOWED_HOSTS settings) <->
   forall get_host get_value,
     safe_get_host get_host get_value settings request = get_host request) /\
  (~ restricts_hosts (ALLOWED_HOSTS settings) <->
   forall get_host get_value,
     safe_get_host get_host get_value settings request =
     Ok (get_value "site_domain" (SITE_NAME settings))).
Proof.
  unfold safe_get_host.
  pose proof (restricts_hosts_iff (ALLOWED_HOSTS settings)) as Hiff.
  destruct (isinstance_list_or_tuple (ALLOWED_HOSTS settings)
            && negb (star_in (ALLOWED_HOSTS settings))) eqn:E.
  - assert (Hr : restricts_hosts (ALLOWED_HOSTS settings)) by now apply Hiff.
    split; split.
    + reflexivity.
    + intros _. exact Hr.
    + contradiction.
    + intros H. specialize (H (fun _ => Raise DisallowedHost) (fun _ _ => "")).
      discriminate.
  - assert (Hr : ~ restricts_hosts (ALLOWED_HOSTS settings)).
    { intros Hr. apply Hiff in Hr. discriminate. }
    split; split.
    + contradiction.
    + intros H. specialize (H (fun _ => Raise DisallowedHost) (fun _ _ => "")).
      discriminate.
    + reflexivity.
    + intros _. exact Hr.
Qed.

(** ** get_request_or_stub *)

Lemma stub_environ (name : pyval) (default_port : Z) :
  let stub :=
    RequestFactory_get
      {| defaults := [("SERVER_NAME", name);
                      ("SERVER_PORT", VInt default_port)] |} "/" in
  method stub = "GET" /\ path stub = "/" /\
  Dict.get (META stub) "SERVER_NAME" = Some name /\
  Dict.get (META stub) "SERVER_PORT" = Some (VStr "80").
Proof. repeat split; reflexivity. Qed.

(** C8 (as the code behaves): without a current request and with the site
    name ["edx.example.com:8000"], whose parsed port is [8000], the stub has
    the parsed host name but its ['SERVER_PORT'] is ['80']:
    [RequestFactory.get] writes its own port over the factory's default. *)
Theorem get_request_or_stub_drops_port :
  exists parsed_url stub,
    urlparse_sample ("http://" ++ SITE_NAME sample_settings) = Ok parsed_url /\
    port parsed_url = Ok (Some 8000) /\
    get_request_or_stub urlparse_sample sample_settings None = Ok stub /\
    Dict.get (META stub) "SERVER_NAME" = Some (VStr "edx.example.com") /\
    Dict.get (META stub) "SERVER_PORT" = Some (VStr "80").
Proof.
  eexists. eexists. repeat split; reflexivity.
Qed.

(** ** course_id_from_url *)

Lemma sample_from_string_contract (s : string) (e : exn) :
  sample_from_string s = Raise e -> e = InvalidKeyError.
Proof.
  assert (H : forall parts deprecated,
            sample_locator parts deprecated = Raise e -> e = InvalidKeyError).
  { intros parts deprecated. unfold sample_locator.
    destruct parts as [|org [|course [|run [|extra parts]]]];
      try (now intros [= <-]).
    destruct (String.eqb org "" || String.eqb course "" || String.eqb run "");
      [now intros [= <-]|discriminate]. }
  unfold sample_from_string. destruct (String.prefix "course-v1:" s); apply H.
Qed.

Lemma sample_group_always (u m : string) :
  sample_match u = Some m -> sample_group m <> None.
Proof. intros _. discriminate. Qed.

(** Whatever the key parser raises, [InvalidKeyError] does not leave
    [course_id_from_url]. *)
Lemma course_id_from_url_catches_InvalidKeyError (CourseKey Match : Type)
    (re_match : string -> option Match) (group : Match -> option string)
    (from_string : string -> result CourseKey) (url : option string) :
  course_id_from_url CourseKey Match re_match group from_string url
  <> Raise InvalidKeyError.
Proof.
  unfold course_id_from_url.
  destruct (falsy url); [discriminate|].
  destruct url as [u|]; [|discriminate].
  destruct (re_match u) as [m|]; [|discriminate].
  destruct (group m) as [cid|]; [|discriminate].
  destruct (from_string cid) as [key|[]]; simpl; discriminate.
Qed.

(** C3: with a course pattern whose [course_id] group takes part in every
    match and a key parser that raises nothing but [InvalidKeyError],
    [course_id_from_url] returns [None] exactly for an absent URL ([None] or
    the empty string), for a URL the pattern does not match, and for a
    matched [course_id] the key parser rejects; in every other case it
    returns the key parsed from the matched [course_id]; it raises
    nothing. *)
Theorem course_id_from_url_spec (CourseKey Match : Type)
    (re_match : string -> option Match) (group : Match -> option string)
    (from_string : string -> result CourseKey) (url : option string) :
  (forall u m, re_match u = Some m -> group m <> None) ->
  (forall s e, from_string s = Raise e -> e = InvalidKeyError) ->
  let result :=
    course_id_from_url CourseKey Match re_match group from_string url in
  (result = Ok None <->
   url = None \/ url = Some "" \/
   (exists u, url = Some u /\ re_match u = None) \/
   (exists u m cid,
      url = Some u /\ re_match u = Some m /\ group m = Some cid /\
      from_string cid = Raise InvalidKeyError)) /\
  (result = Ok None \/
   exists u m cid key,
     url = Some u /\ u <> "" /\ re_match u = Some m /\
     group m = Some cid /\ from_string cid = Ok key /\
     result = Ok (Some key)) /\
  (forall e, result <> Raise e).
Proof.
  intros Hgroup Hcontract result. subst result. unfold course_id_from_url.
  destruct url as [u|]; cbn [falsy].
  2:{ split; [split; auto|]. split; [now left|discriminate]. }
  destruct (String.eqb u "") eqn:Hu.
  { apply String.eqb_eq in Hu. subst u.
    split; [split; auto|]. split; [now left|discriminate]. }
  apply String.eqb_neq in Hu.
  destruct (re_match u) as [m|] eqn:Hm.
  2:{ split; [split; [intros _|reflexivity]|].
      - right; right; left. now exists u.
      - split; [now left|discriminate]. }
  destruct (group m) as [cid|] eqn:Hg.
  2:{ exfalso. now apply (Hgroup u m Hm). }
  destruct (from_string cid) as [key|e] eqn:Hf; cbn.
  - split; [split|].
    + discriminate.
    + intros [H|[H|[(u' & H & H')|(u' & m' & cid' & H & H' & H2 & H3)]]];
        try discriminate; inversion H; subst; congruence.
    + split; [right; exists u, m, cid, key; auto 10|discriminate].
  - pose proof (Hcontract cid e Hf) as ->. cbn.
    split; [split; [intros _|reflexivity]|].
    + right; right; right. now exists u, m, cid.
    + split; [now left|discriminate].
Qed.

Lemma course_id_from_url_spec_witness :
  let url := Some "/courses/course-v1:edX+DemoX+Demo_Course/about" in
  let result :=
    course_id_from_url SampleCourseKey string sample_match sample_group
      sample_from_string url in
  (result = Ok None <->
   url = None \/ url = Some "" \/
   (exists u, url = Some u /\ sample_match u = None) \/
   (exists u m cid,
      url = Some u /\ sample_match u = Some m /\ sample_group m = Some cid /\
      sample_from_string cid = Raise InvalidKeyError)) /\
  (result = Ok None \/
   exists u m cid key,
     url = Some u /\ u <> "" /\ sample_match u = Some m /\
     sample_group m = Some cid /\ sample_from_string cid = Ok key /\
     result = Ok (Some key)) /\
  (forall e, result <> Raise e).
Proof.
  exact (course_id_from_url_spec SampleCourseKey string sample_match
           sample_group sample_from_string
           (Some "/courses/course-v1:edX+DemoX+Demo_Course/about")
           sample_group_always sample_from_string_contract).
Defined.

(** * Further properties *)

(** ** Which of several largest entries max picks *)

Lemma max_loop_first (key : string -> result Z) (f : string -> Z) :
  forall (l : list string) (m : string) (mid : list string),
    (forall x, In x l -> key x = Ok (f x)) ->
    (forall x, In x mid -> f x <= f m) ->
    exists r before after,
      max_loop key m (f m) l = Ok r /\
      (m :: mid ++ l)%list = (before ++ r :: after)%list /\
      (forall x, In x before -> f x < f r) /\
      (forall x, In x after -> f x <= f r).
Proof.
  induction l as [|x l IH]; intros m mid Hkey Hmid; cbn [max_loop].
  - exists m, [], mid. rewrite app_nil_r. repeat split; auto.
    intros x [].
  - rewrite (Hkey x (or_introl eq_refl)).
    assert (Hl : forall y, In y l -> key y = Ok (f y))
      by (intros; apply Hkey; now right).
    destruct (f m <? f x) eqn:E.
    + apply Z.ltb_lt in E.
      destruct (IH x [] Hl) as (r & before & after & Hr & Heq & Hb & Ha);
        [intros y []|].
      simpl in Heq.
      assert (Hxr : f x <= f r).
      { destruct before as [|b before]; simpl in Heq; inversion Heq; subst.
        - lia.
        - specialize (Hb b (or_introl eq_refl)). lia. }
      exists r, (m :: mid ++ before)%list, after. split; [exact Hr|]. split.
      * simpl. rewrite <- app_assoc. f_equal. f_equal. exact Heq.
      * split; [|exact Ha].
        intros y [->|Hy]; [lia|].
        apply in_app_or in Hy as [Hy|Hy]; [|now apply Hb].
        specialize (Hmid y Hy). lia.
    + apply Z.ltb_ge in E.
      destruct (IH m (mid ++ [x])%list Hl) as (r & before & after & Hr & Heq & Hb & Ha).
      { intros y Hy. apply in_app_or in Hy as [Hy|[->|[]]]; auto. }
      exists r, before, after. split; [exact Hr|]. split; [|auto].
      rewrite <- Heq. simpl. now rewrite <- app_assoc.
Qed.

Lemma map_fst_split (V : Type) (d : Dict.t V) (kb ka : list string) (r : string) :
  Dict.keys d = (kb ++ r :: ka)%list ->
  exists before v after,
    d = (before ++ (r, v) :: after)%list /\
    Dict.keys before = kb /\ Dict.keys after = ka.
Proof.
  unfold Dict.keys. intros H.
  apply map_eq_app in H as (before & rest & -> & Hb & Hrest).
  apply map_eq_cons in Hrest as ([k v] & after & -> & Hk & Ha).
  simpl in Hk. subst k. now exists before, v, after.
Qed.

Lemma max_entry_first (d : Dict.t Z) (name : string) (size : Z) :
  Dict.well_formed d ->
  max_entry d = Ok (name, size) ->
  first_largest_entry d name size.
Proof.
  intros Hwf Hmax. destruct d as [|[k0 v0] d]; [discriminate|].
  set (D := (k0, v0) :: d) in *.
  set (f := fun k => Dict.get_default D k 0).
  assert (Hkey : forall x, In x (Dict.keys D) -> Dict.index D x = Ok (f x)).
  { intros x Hx. destruct (get_in_keys _ D x Hx) as (v & Hv).
    unfold Dict.index, f, Dict.get_default. now rewrite Hv. }
  assert (Hval : forall k v, In (k, v) D -> f k = v).
  { intros k v Hin. unfold f, Dict.get_default.
    now rewrite (get_nodup_in _ D k v Hwf Hin). }
  destruct (max_loop_first (fun n => Dict.index D n) f (Dict.keys d) k0 [])
    as (r & kb & ka & Hr & Heq & Hb & Ha).
  { intros x Hx. apply Hkey. now right. }
  { intros x []. }
  unfold max_entry, py_max in Hmax.
  change (Dict.keys D) with (k0 :: Dict.keys d) in Hmax.
  cbv beta iota in Hmax. rewrite (Hkey k0 (or_introl eq_refl)), Hr in Hmax.
  unfold result_bind, Dict.index in Hmax.
  destruct (Dict.get D r) as [s|] eqn:Hs; [|discriminate].
  inversion Hmax; subst r s. clear Hmax.
  simpl in Heq. change (k0 :: Dict.keys d) with (Dict.keys D) in Heq.
  destruct (map_fst_split _ D kb ka name Heq) as (before & v & after & HD & Hkb & Hka).
  assert (Hv : v = size).
  { assert (Hin : In (name, v) D) by (rewrite HD; apply in_elt).
    apply (get_nodup_in _ D name v Hwf) in Hin. congruence. }
  subst v. exists before, after. split; [exact HD|].
  assert (Hf : f name = size).
  { apply Hval. rewrite HD. apply in_elt. }
  split.
  - intros k v Hin. rewrite <- Hf, <- (Hval k v).
    + apply Hb. rewrite <- Hkb. change k with (fst (k, v)). now apply in_map.
    + rewrite HD. apply in_or_app. now left.
  - intros k v Hin. rewrite <- Hf, <- (Hval k v).
    + apply Ha. rewrite <- Hka. change k with (fst (k, v)). now apply in_map.
    + rewrite HD. apply in_or_app. right. now right.
Qed.

Lemma names_well_formed (cookies : Dict.t string) :
  Dict.well_formed cookies -> Dict.well_formed (map size_entry cookies).
Proof.
  unfold Dict.well_formed, Dict.keys. now rewrite map_map.
Qed.

Lemma first_largest_entry_cookie (cookies : Dict.t string) (cn : string)
    (cs : Z) :
  first_largest_entry (map size_entry cookies) cn cs ->
  exists value, len value = cs /\ first_largest_cookie cookies cn value.
Proof.
  intros (before & after & Heq & Hb & Ha).
  apply map_eq_app in Heq as (cb & rest & -> & Hcb & Hrest).
  apply map_eq_cons in Hrest as ([n value] & ca & -> & Hitem & Hca).
  unfold size_entry in Hitem; simpl in Hitem. inversion Hitem; subst n cs.
  exists value. split; [reflexivity|]. exists cb, ca. split; [reflexivity|].
  split; intros n v Hin.
  - apply (Hb n). rewrite <- Hcb.
    change (n, len v) with (size_entry (n, v)). now apply in_map.
  - apply (Ha n). rewrite <- Hca.
    change (n, len v) with (size_entry (n, v)). now apply in_map.
Qed.

(** X1: among several cookies of the largest size, the one that comes first
    in the request is the one reported as [cookies.max.name]. *)
Theorem max_cookie_is_first_largest (w : World) :
  capture_cookie_sizes w = true ->
  Dict.well_formed (COOKIES (request w)) ->
  has_group (COOKIES (request w)) = true ->
  let evs := emitted w (snd (process_request w)) in
  exists name value,
    reported "cookies.max.name" evs = Some (VStr name) /\
    reported "cookies.max.size" evs = Some (VInt (len value)) /\
    first_largest_cookie (COOKIES (request w)) name value.
Proof.
  intros Hflag Hwf Hgroup evs.
  destruct (process_request_reports w Hflag Hwf Hgroup)
    as (cn & cs & gn & gs & prefix & Hmax & _ & _ & _ & Hevs).
  rewrite names_of_cookies in Hmax by exact Hwf.
  apply max_entry_first in Hmax; [|now apply names_well_formed].
  apply first_largest_entry_cookie in Hmax as (value & Hlen & Hfirst).
  subst evs. rewrite Hevs.
  destruct (reported_summary prefix cn cs
              (if gs <? cs then cn else gn) (if gs <? cs then cs else gs)
              (total_size (COOKIES (request w))))
    as (Hname & Hsize & _).
  exists cn, value. rewrite Hname, Hsize, Hlen. auto.
Qed.

Lemma max_cookie_is_first_largest_witness :
  let w := world_of true sample_cookies in
  let evs := emitted w (snd (process_request w)) in
  exists name value,
    reported "cookies.max.name" evs = Some (VStr name) /\
    reported "cookies.max.size" evs = Some (VInt (len value)) /\
    first_largest_cookie (COOKIES (request w)) name value.
Proof.
  exact (max_cookie_is_first_largest (world_of true sample_cookies) eq_refl
           sample_cookies_well_formed eq_refl).
Defined.

(** X2: among several groups of the largest summed size, the one recorded
    first in [cookie_groups_to_size] is the one [max] picks, and it is the one
    reported as [cookies.max.group.name], with its size, unless the largest
    cookie of the request is strictly larger. *)
Theorem max_group_is_first_largest (w : World) :
  capture_cookie_sizes w = true ->
  Dict.well_formed (COOKIES (request w)) ->
  has_group (COOKIES (request w)) = true ->
  let cookies := COOKIES (request w) in
  let groups := snd (cookie_sizes cookies) in
  let evs := emitted w (snd (process_request w)) in
  exists gn gs cn cs,
    max_entry groups = Ok (gn, gs) /\
    first_largest_entry groups gn gs /\
    largest_cookie cookies cn cs /\
    (cs <= gs ->
     reported "cookies.max.group.name" evs = Some (VStr gn) /\
     reported "cookies.max.group.size" evs = Some (VInt gs)) /\
    (gs < cs ->
     reported "cookies.max.group.name" evs = Some (VStr cn) /\
     reported "cookies.max.group.size" evs = Some (VInt cs)).
Proof.
  intros Hflag Hwf Hgroup cookies groups evs.
  destruct (process_request_with_group w Hflag Hgroup)
    as (cn & cs & gn & gs & _ & Hln & Hg & _ & Hrun).
  fold cookies in Hln, Hg, Hrun. fold groups in Hg, Hrun.
  exists gn, gs, cn, cs. split; [exact Hg|]. split.
  { apply max_entry_first; [apply groups_well_formed|exact Hg]. }
  split.
  { apply largest_entry_cookie; [exact Hwf|].
    subst cookies. now rewrite <- names_of_cookies. }
  subst evs. rewrite Hrun. cbn [snd]. rewrite emitted_add_events.
  change (ReadCookies :: group_events groups ++ ?s)%list
    with ((ReadCookies :: group_events groups) ++ s)%list.
  match goal with
  | |- context [summary_events ?a ?b ?c ?d ?e] =>
      destruct (reported_summary (ReadCookies :: group_events groups) a b c d e)
        as (_ & _ & Hgname & Hgsize & _)
  end.
  rewrite Hgname, Hgsize. split.
  - intros Hle. apply Z.ltb_ge in Hle. now rewrite Hle.
  - intros Hlt. apply Z.ltb_lt in Hlt. now rewrite Hlt.
Qed.

Lemma sample_tied_cookies_well_formed : Dict.well_formed sample_tied_cookies.
Proof.
  unfold Dict.well_formed, sample_tied_cookies. simpl.
  repeat constructor; simpl; intuition discriminate.
Qed.

(** On [sample_tied_cookies] the groups [b] and [a] both have size [5], no
    cookie is larger, and [b], recorded first, is reported. *)
Lemma max_group_is_first_largest_witness :
  let w := world_of true sample_tied_cookies in
  let cookies := COOKIES (request w) in
  let groups := snd (cookie_sizes cookies) in
  let evs := emitted w (snd (process_request w)) in
  (groups = [("b", 5); ("a", 5)] /\
   reported "cookies.max.size" evs = Some (VInt 5) /\
   reported "cookies.max.group.name" evs = Some (VStr "b")) /\
  exists gn gs cn cs,
    max_entry groups = Ok (gn, gs) /\
    first_largest_entry groups gn gs /\
    largest_cookie cookies cn cs /\
    (cs <= gs ->
     reported "cookies.max.group.name" evs = Some (VStr gn) /\
     reported "cookies.max.group.size" evs = Some (VInt gs)) /\
    (gs < cs ->
     reported "cookies.max.group.name" evs = Some (VStr cn) /\
     reported "cookies.max.group.size" evs = Some (VInt cs)).
Proof.
  split.
  - repeat split; reflexivity.
  - exact (max_group_is_first_largest (world_of true sample_tied_cookies)
             eq_refl sample_tied_cookies_well_formed eq_refl).
Defined.

(** ** When process_request raises *)

(** X3: [process_request] returns [None] when the flag is off or some cookie
    is in a group, and raises [ValueError] exactly when the flag is on and no
    cookie is in a group; it raises nothing else, and when it raises it has
    read the cookies and emitted nothing. *)
Theorem process_request_outcome (w : World) :
  (fst (process_request w) = Ok None <->
   capture_cookie_sizes w = false \/ has_group (COOKIES (request w)) = true) /\
  (fst (process_request w) = Raise ValueError <->
   capture_cookie_sizes w = true /\ has_group (COOKIES (request w)) = false) /\
  (forall e,
     fst (process_request w) = Raise e ->
     e = ValueError /\ emitted w (snd (process_request w)) = [ReadCookies]).
Proof.
  destruct (capture_cookie_sizes w) eqn:Hflag.
  - destruct (has_group (COOKIES (request w))) eqn:Hgroup.
    + destruct (process_request_with_group w Hflag Hgroup)
        as (cn & cs & gn & gs & _ & _ & _ & _ & Hrun).
      rewrite Hrun. cbn [fst snd]. split; [|split].
      * split; auto.
      * split; [discriminate|]. intros [_ H]. discriminate.
      * intros e H. discriminate.
    + rewrite process_request_no_group by assumption. cbn [fst snd].
      rewrite emitted_add_events. split; [|split].
      * split; [discriminate|]. intros [H|H]; discriminate.
      * split; auto.
      * intros e [= <-]. auto.
  - rewrite process_request_disabled by exact Hflag. cbn [fst snd].
    split; [|split].
    + split; auto.
    + split; [discriminate|]. intros [H _]. discriminate.
    + intros e H. discriminate.
Qed.

(** ** Which cookies are grouped *)

Lemma append_empty_r (s : string) : s ++ "" = s.
Proof. induction s as [|c s IH]; simpl; [reflexivity|now rewrite IH]. Qed.

Lemma length_append (a b : string) :
  String.length (a ++ b) = (String.length a + String.length b)%nat.
Proof. induction a as [|c a IH]; simpl; [reflexivity|now rewrite IH]. Qed.

Lemma grouping_name_append (g : string) (c : ascii) (rest : string) :
  no_separator g = true -> is_separator c = true ->
  grouping_name (g ++ String c rest) = g.
Proof.
  intros Hg Hc. induction g as [|a g IH]; simpl.
  - now rewrite Hc.
  - simpl in Hg. apply andb_true_iff in Hg as [Ha Hg].
    apply negb_true_iff in Ha. rewrite Ha. now rewrite IH.
Qed.

Lemma in_group_separator (name : string) :
  in_group name = true ->
  exists g c rest,
    name = g ++ String c rest /\ g <> "" /\
    no_separator g = true /\ is_separator c = true /\ grouping_name name = g.
Proof.
  unfold in_group. rewrite andb_true_iff, !negb_true_iff, !String.eqb_neq.
  intros [Hne Hneq].
  destruct (grouping_name_prefix name) as (Hno & rest & Heq & Hrest).
  destruct Hrest as [->|(c & rest' & -> & Hc)].
  - rewrite append_empty_r in Heq. congruence.
  - exists (grouping_name name), c, rest'. auto.
Qed.

(** X4: a cookie is in a group exactly when its name has a ['.'] or ['_']
    that is not its first character; its group is then what precedes the
    first one.  So a name without separator, and a name that starts with one
    (such as [_ga]), add to no group. *)
Theorem grouped_cookie_names (name : string) :
  in_group name = true <->
  exists g c rest,
    name = g ++ String c rest /\ g <> "" /\
    no_separator g = true /\ is_separator c = true /\ grouping_name name = g.
Proof.
  split; [apply in_group_separator|].
  intros (g & c & rest & -> & Hne & Hno & Hc & _).
  unfold in_group. rewrite andb_true_iff, !negb_true_iff, !String.eqb_neq.
  rewrite grouping_name_append by assumption. split; [exact Hne|].
  intros Heq. apply (f_equal String.length) in Heq.
  rewrite length_append in Heq. simpl in Heq. lia.
Qed.

Lemma len_nonneg (s : string) : 0 <= len s.
Proof. unfold len. lia. Qed.

Lemma group_total_nonneg (g : string) (l : list (string * string)) :
  0 <= group_total g l.
Proof.
  induction l as [|[name value] l IH]; simpl; [lia|].
  pose proof (len_nonneg value). destruct (member_of g name); lia.
Qed.

Lemma is_group_member (g : string) (l : list (string * string)) :
  is_group g l = true <->
  exists name value, In (name, value) l /\ member_of g name = true.
Proof.
  unfold is_group. rewrite existsb_exists. split.
  - intros ([name value] & Hin & Hm). now exists name, value.
  - intros (name & value & Hin & Hm). now exists (name, value).
Qed.

(** X5: every prefix recorded in [cookie_groups_to_size] is non-empty, has no
    ['.'] and no ['_'], is the proper prefix of some cookie name of the
    request, and its recorded size is not negative. *)
Theorem recorded_groups_well_formed (cookies : Dict.t string) (g : string)
    (size : Z) :
  Dict.get (snd (cookie_sizes cookies)) g = Some size ->
  g <> "" /\ no_separator g = true /\ 0 <= size /\
  exists c rest value,
    In (g ++ String c rest, value) cookies /\ is_separator c = true.
Proof.
  rewrite groups_of_cookies.
  destruct (is_group g cookies) eqn:Hg; [|discriminate].
  intros [= <-].
  apply is_group_member in Hg as (name & value & Hin & Hm).
  unfold member_of in Hm. apply andb_true_iff in Hm as [Hin_group Heq].
  apply String.eqb_eq in Heq.
  apply in_group_separator in Hin_group as (g' & c & rest & Hname & Hne & Hno & Hc & Hgn).
  rewrite Hgn in *. rewrite Heq in *. clear Hgn Heq.
  split; [exact Hne|]. split; [exact Hno|].
  split; [apply group_total_nonneg|].
  exists c, rest, value. rewrite <- Hname. auto.
Qed.

Lemma recorded_groups_well_formed_witness :
  "ab" <> "" /\ no_separator "ab" = true /\ 0 <= 7 /\
  exists c rest value,
    In ("ab" ++ String c rest, value) sample_cookies /\ is_separator c = true.
Proof.
  exact (recorded_groups_well_formed sample_cookies "ab" 7 eq_refl).
Defined.

(** ** How the reported sizes compare *)

Lemma total_size_nonneg (l : list (string * string)) : 0 <= total_size l.
Proof.
  induction l as [|[name value] l IH]; simpl; [lia|].
  pose proof (len_nonneg value). lia.
Qed.

Lemma group_total_le_total (g : string) (l : list (string * string)) :
  group_total g l <= total_size l.
Proof.
  induction l as [|[name value] l IH]; simpl; [lia|].
  pose proof (len_nonneg value). destruct (member_of g name); lia.
Qed.

Lemma cookie_le_total (l : list (string * string)) (n v : string) :
  In (n, v) l -> len v <= total_size l.
Proof.
  induction l as [|[name value] l IH]; simpl; [tauto|].
  pose proof (len_nonneg value). pose proof (total_size_nonneg l).
  intros [[= -> ->]|Hin]; [lia|]. specialize (IH Hin). lia.
Qed.

(** X6: in a completed run the reported sizes are ordered:
    [0 <= cookies.max.size <= cookies.max.group.size <= cookies_total_size]. *)
Theorem reported_sizes_ordered (w : World) :
  capture_cookie_sizes w = true ->
  Dict.well_formed (COOKIES (request w)) ->
  has_group (COOKIES (request w)) = true ->
  let evs := emitted w (snd (process_request w)) in
  exists max_size max_group_size total,
    reported "cookies.max.size" evs = Some (VInt max_size) /\
    reported "cookies.max.group.size" evs = Some (VInt max_group_size) /\
    reported "cookies_total_size" evs = Some (VInt total) /\
    0 <= max_size /\ max_size <= max_group_size /\ max_group_size <= total.
Proof.
  intros Hflag Hwf Hgroup evs.
  destruct (process_request_reports w Hflag Hwf Hgroup)
    as (cn & cs & gn & gs & prefix & _ & Hlc & Hlg & _ & Hevs).
  subst evs. rewrite Hevs.
  destruct (reported_summary prefix cn cs
              (if gs <? cs then cn else gn) (if gs <? cs then cs else gs)
              (total_size (COOKIES (request w))))
    as (_ & Hsize & _ & Hgsize & Htotal).
  exists cs, (if gs <? cs then cs else gs), (total_size (COOKIES (request w))).
  split; [exact Hsize|]. split; [exact Hgsize|]. split; [exact Htotal|].
  destruct Hlc as [(value & Hin & Hlen) _]. destruct Hlg as (_ & Hgs & _).
  pose proof (len_nonneg value).
  pose proof (cookie_le_total _ _ _ Hin).
  pose proof (group_total_le_total gn (COOKIES (request w))).
  destruct (gs <? cs) eqn:E; [apply Z.ltb_lt in E|apply Z.ltb_ge in E]; lia.
Qed.

Lemma reported_sizes_ordered_witness :
  let w := world_of true sample_cookies in
  let evs := emitted w (snd (process_request w)) in
  exists max_size max_group_size total,
    reported "cookies.max.size" evs = Some (VInt max_size) /\
    reported "cookies.max.group.size" evs = Some (VInt max_group_size) /\
    reported "cookies_total_size" evs = Some (VInt total) /\
    0 <= max_size /\ max_size <= max_group_size /\ max_group_size <= total.
Proof.
  exact (reported_sizes_ordered (world_of true sample_cookies) eq_refl
           sample_cookies_well_formed eq_refl).
Defined.

(** ** The groups together *)

Lemma py_sum_cons (x : Z) (l : list Z) : py_sum (x :: l) = x + py_sum l.
Proof. unfold py_sum at 1. simpl. now rewrite fold_add. Qed.

Lemma py_sum_set_add (g : Dict.t Z) (k : string) (s : Z) :
  py_sum (Dict.values (Dict.set g k (Dict.get_default g k 0 + s))) =
  py_sum (Dict.values g) + s.
Proof.
  unfold Dict.get_default, Dict.values.
  induction g as [|[k' v'] g IH]; simpl.
  - rewrite py_sum_cons. unfold py_sum. simpl. lia.
  - destruct (String.eqb k' k); simpl; rewrite !py_sum_cons.
    + lia.
    + rewrite IH. lia.
Qed.

Lemma groups_sum_fold (l : list (string * string)) :
  forall a g : Dict.t Z,
    py_sum (Dict.values (snd (fold_left cookie_loop_body l (a, g)))) =
    py_sum (Dict.values g) + grouped_size l.
Proof.
  induction l as [|[name value] l IH]; intros a g; cbn [fold_left].
  - simpl. lia.
  - destruct (cookie_loop_body (a, g) (name, value)) as [a' g'] eqn:E.
    assert (Hg' : g' = snd (cookie_loop_body (a, g) (name, value)))
      by now rewrite E.
    rewrite cookie_loop_body_snd in Hg'. rewrite IH. simpl grouped_size.
    subst g'. destruct (in_group name).
    + rewrite py_sum_set_add. lia.
    + lia.
Qed.

Lemma grouped_size_le_total (l : list (string * string)) :
  grouped_size l <= total_size l.
Proof.
  induction l as [|[name value] l IH]; simpl; [lia|].
  pose proof (len_nonneg value). destruct (in_group name); lia.
Qed.

(** X7: a cookie adds to at most one group, so the recorded group sizes add
    up to the summed size of the grouped cookies, which never exceeds the
    summed size of all the cookies. *)
Theorem group_sizes_partition (cookies : Dict.t string) :
  (forall g1 g2 name,
     member_of g1 name = true -> member_of g2 name = true -> g1 = g2) /\
  py_sum (Dict.values (snd (cookie_sizes cookies))) = grouped_size cookies /\
  grouped_size cookies <= total_size cookies.
Proof.
  split; [|split].
  - intros g1 g2 name H1 H2.
    apply member_of_iff in H1 as [H1 _]. apply member_of_iff in H2 as [H2 _].
    congruence.
  - unfold cookie_sizes, Dict.items. rewrite groups_sum_fold. reflexivity.
  - apply grouped_size_le_total.
Qed.

(** ** How many attributes a run sets *)

Lemma set_length (V : Type) (d : Dict.t V) (k : string) (v : V) :
  (List.length (Dict.set d k v) <= S (List.length d))%nat.
Proof.
  induction d as [|[k' v'] d IH]; simpl; [lia|].
  destruct (String.eqb k' k); simpl; lia.
Qed.

Lemma groups_length_fold (l : list (string * string)) :
  forall a g : Dict.t Z,
    (List.length (snd (fold_left cookie_loop_body l (a, g)))
     <= List.length g + grouped_count l)%nat.
Proof.
  unfold grouped_count.
  induction l as [|[name value] l IH]; intros a g; cbn [fold_left].
  - simpl. lia.
  - destruct (cookie_loop_body (a, g) (name, value)) as [a' g'] eqn:E.
    assert (Hg' : g' = snd (cookie_loop_body (a, g) (name, value)))
      by now rewrite E.
    rewrite cookie_loop_body_snd in Hg'. specialize (IH a' g').
    simpl filter. subst g'. destruct (in_group name); simpl List.length.
    + pose proof (set_length _ g (grouping_name name)
                    (Dict.get_default g (grouping_name name) 0 + len value)).
      lia.
    + lia.
Qed.

Lemma attribute_count_app (a b : list event) :
  attribute_count (a ++ b) = (attribute_count a + attribute_count b)%nat.
Proof. unfold attribute_count. now rewrite filter_app, length_app. Qed.

Lemma attribute_count_group_events (groups : Dict.t Z) :
  attribute_count (group_events groups) = List.length groups.
Proof.
  induction groups as [|[g size] groups IH]; [reflexivity|].
  unfold attribute_count in *. simpl. now rewrite IH.
Qed.

(** X8: a completed run sets one attribute for each recorded group and five
    more, and there are no more recorded groups than grouped cookies: the
    cookies that are in no group add no attribute. *)
Theorem attribute_count_of_run (w : World) :
  capture_cookie_sizes w = true ->
  has_group (COOKIES (request w)) = true ->
  let cookies := COOKIES (request w) in
  let groups := snd (cookie_sizes cookies) in
  attribute_count (emitted w (snd (process_request w))) =
    (List.length groups + 5)%nat /\
  (List.length groups <= grouped_count cookies)%nat /\
  (grouped_count cookies <= List.length cookies)%nat.
Proof.
  intros Hflag Hgroup cookies groups.
  destruct (process_request_with_group w Hflag Hgroup)
    as (cn & cs & gn & gs & _ & _ & _ & _ & Hrun).
  rewrite Hrun. cbn [snd]. rewrite emitted_add_events.
  split; [|split].
  - change (ReadCookies :: ?a ++ ?b)%list with ([ReadCookies] ++ a ++ b)%list.
    rewrite !attribute_count_app, attribute_count_group_events.
    fold cookies. fold groups. unfold attribute_count. simpl. lia.
  - subst groups. unfold cookie_sizes, Dict.items.
    pose proof (groups_length_fold cookies Dict.empty Dict.empty) as H.
    simpl in H. exact H.
  - unfold grouped_count. apply filter_length_le.
Qed.

Lemma attribute_count_of_run_witness :
  let w := world_of true sample_cookies in
  let cookies := COOKIES (request w) in
  let groups := snd (cookie_sizes cookies) in
  attribute_count (emitted w (snd (process_request w))) =
    (List.length groups + 5)%nat /\
  (List.length groups <= grouped_count cookies)%nat /\
  (grouped_count cookies <= List.length cookies)%nat.
Proof.
  exact (attribute_count_of_run (world_of true sample_cookies) eq_refl
           eq_refl).
Defined.

(** ** The name-to-size mapping *)

(** X9: [cookie_names_to_size] has the names of the request's cookies, in
    the request's order, and maps each name to the length of its cookie's
    value and to nothing else. *)
Theorem names_to_size_spec (cookies : Dict.t string) :
  Dict.well_formed cookies ->
  let names := fst (cookie_sizes cookies) in
  Dict.keys names = Dict.keys cookies /\
  (forall name value,
     In (name, value) cookies -> Dict.get names name = Some (len value)) /\
  (forall name size,
     Dict.get names name = Some size ->
     exists value, In (name, value) cookies /\ size = len value).
Proof.
  intros Hwf names. subst names. rewrite names_of_cookies by exact Hwf.
  split; [|split].
  - unfold Dict.keys. now rewrite map_map.
  - intros name value Hin. apply get_nodup_in.
    + now apply names_well_formed.
    + change (name, len value) with (size_entry (name, value)).
      now apply in_map.
  - intros name size Hget. apply get_some_in in Hget.
    apply in_map_iff in Hget as ([n v] & Heq & Hin).
    unfold size_entry in Heq; simpl in Heq. inversion Heq; subst.
    now exists v.
Qed.

Lemma names_to_size_spec_witness :
  let names := fst (cookie_sizes sample_cookies) in
  Dict.keys names = Dict.keys sample_cookies /\
  (forall name value,
     In (name, value) sample_cookies ->
     Dict.get names name = Some (len value)) /\
  (forall name size,
     Dict.get names name = Some size ->
     exists value, In (name, value) sample_cookies /\ size = len value).
Proof.
  exact (names_to_size_spec sample_cookies sample_cookies_well_formed).
Defined.

(** ** The final value of a group attribute *)

Lemma append_cancel_r (s : string) :
  forall a b : string, a ++ s = b ++ s -> a = b.
Proof.
  induction a as [|c a IH]; intros [|c' b] H; simpl in H.
  - reflexivity.
  - apply (f_equal String.length) in H. simpl in H.
    rewrite length_append in H. lia.
  - apply (f_equal String.length) in H. simpl in H.
    rewrite length_append in H. lia.
  - inversion H; subst. f_equal. now apply IH.
Qed.

Lemma group_attribute_name_inj (a b : string) :
  group_attribute_name a = group_attribute_name b -> a = b.
Proof.
  unfold group_attribute_name. simpl. intros H. inversion H as [H'].
  now apply append_cancel_r in H'.
Qed.

Lemma group_attribute_name_summary (g : string) :
  In (group_attribute_name g) summary_keys -> g = "max".
Proof.
  unfold summary_keys, group_attribute_name. simpl.
  intros [H|[H|[H|[H|[H|[]]]]]]; inversion H as [H']; clear H.
  - apply (f_equal String.length) in H'. rewrite length_append in H'.
    simpl in H'. lia.
  - apply (f_equal String.length) in H'. rewrite length_append in H'.
    simpl in H'. lia.
  - assert (Hlen : String.length g = 3%nat).
    { apply (f_equal String.length) in H'. rewrite length_append in H'.
      simpl in H'. lia. }
    destruct g as [|a [|b [|c [|d g]]]]; simpl in Hlen; discriminate.
  - symmetry. apply (append_cancel_r ".group.size" "max" g). exact H'.
Qed.

Lemma reported_summary_other (key cn : string) (cs : Z) (gn : string)
    (gs total : Z) :
  ~ In key summary_keys ->
  reported key (summary_events cn cs gn gs total) = None.
Proof.
  unfold summary_keys, summary_events. cbn [reported In]. intros Hnot.
  repeat match goal with
         | |- context [String.eqb ?k key] =>
             let E := fresh "E" in
             destruct (String.eqb k key) eqn:E;
             [apply String.eqb_eq in E; exfalso; apply Hnot; tauto|]
         end.
  reflexivity.
Qed.

Lemma reported_group_events_none (groups : Dict.t Z) (g : string) :
  ~ In g (Dict.keys groups) ->
  reported (group_attribute_name g) (group_events groups) = None.
Proof.
  induction groups as [|[k v] groups IH]; intros Hnot; [reflexivity|].
  simpl in Hnot. change (group_events ((k, v) :: groups))
    with (SetCustomAttribute (group_attribute_name k) (VInt v)
          :: LogDebug "%s = %d" [VStr (group_attribute_name k); VInt v]
          :: group_events groups).
  cbn [reported]. rewrite IH by tauto.
  destruct (String.eqb (group_attribute_name k) (group_attribute_name g)) eqn:E;
    [|reflexivity].
  apply String.eqb_eq, group_attribute_name_inj in E. tauto.
Qed.

Lemma reported_group_events (groups : Dict.t Z) (g : string) (size : Z) :
  Dict.well_formed groups ->
  Dict.get groups g = Some size ->
  reported (group_attribute_name g) (group_events groups) = Some (VInt size).
Proof.
  unfold Dict.well_formed.
  induction groups as [|[k v] groups IH]; intros Hwf Hget; [discriminate|].
  simpl in Hwf. inversion Hwf as [|? ? Hnotin Hwf']; subst.
  change (group_events ((k, v) :: groups))
    with (SetCustomAttribute (group_attribute_name k) (VInt v)
          :: LogDebug "%s = %d" [VStr (group_attribute_name k); VInt v]
          :: group_events groups).
  cbn [reported]. simpl in Hget.
  destruct (String.eqb k g) eqn:E.
  - apply String.eqb_eq in E. subst k. inversion Hget; subst.
    rewrite reported_group_events_none by exact Hnotin.
    now rewrite String.eqb_refl.
  - now rewrite IH.
Qed.

(** X10: after a completed run, the attribute [cookies.<g>.group.size] of
    every group [g] other than [max] holds the summed size of the cookies of
    that group. *)
Theorem group_attribute_final_value (w : World) (g : string) :
  capture_cookie_sizes w = true ->
  is_group g (COOKIES (request w)) = true ->
  g <> "max" ->
  fst (process_request w) = Ok None /\
  reported (group_attribute_name g) (emitted w (snd (process_request w))) =
  Some (VInt (group_total g (COOKIES (request w)))).
Proof.
  intros Hflag Hg Hmax.
  pose proof (is_group_has_group _ _ Hg) as Hgroup.
  destruct (process_request_with_group w Hflag Hgroup)
    as (cn & cs & gn & gs & _ & _ & _ & _ & Hrun).
  rewrite Hrun. cbn [fst snd]. rewrite emitted_add_events.
  split; [reflexivity|].
  change (ReadCookies :: ?a ++ ?b)%list with (([ReadCookies] ++ a) ++ b)%list.
  rewrite reported_app, reported_summary_other.
  2:{ intros Hin. apply group_attribute_name_summary in Hin. contradiction. }
  rewrite reported_app.
  rewrite (reported_group_events _ g (group_total g (COOKIES (request w)))).
  - reflexivity.
  - apply groups_well_formed.
  - now rewrite groups_of_cookies, Hg.
Qed.

Lemma group_attribute_final_value_witness :
  let w := world_of true sample_cookies in
  fst (process_request w) = Ok None /\
  reported (group_attribute_name "ab") (emitted w (snd (process_request w))) =
  Some (VInt (group_total "ab" (COOKIES (request w)))).
Proof.
  refine (group_attribute_final_value (world_of true sample_cookies) "ab"
            eq_refl eq_refl _).
  discriminate.
Defined.

(** X11: when the request has a group named [max], its attribute
    [cookies.max.group.size] is first set to the summed size of that group and
    then set again to the largest group size, so what it finally holds is at
    least every group's summed size and every cookie's size, and is the size
    of the group [max] only when nothing is larger. *)
Theorem group_max_attribute_overwritten (w : World) :
  capture_cookie_sizes w = true ->
  Dict.well_formed (COOKIES (request w)) ->
  is_group "max" (COOKIES (request w)) = true ->
  let cookies := COOKIES (request w) in
  let evs := emitted w (snd (process_request w)) in
  In (SetCustomAttribute (group_attribute_name "max")
        (VInt (group_total "max" cookies))) evs /\
  exists size,
    reported (group_attribute_name "max") evs = Some (VInt size) /\
    (forall g, is_group g cookies = true -> group_total g cookies <= size) /\
    (forall n v, In (n, v) cookies -> len v <= size).
Proof.
  intros Hflag Hwf Hmax cookies evs.
  pose proof (is_group_has_group _ _ Hmax) as Hgroup.
  split.
  - destruct (process_request_with_group w Hflag Hgroup)
      as (cn & cs & gn & gs & _ & _ & _ & _ & Hrun).
    subst evs. rewrite Hrun. cbn [snd]. rewrite emitted_add_events.
    right. apply in_or_app. left. apply in_group_events.
    exists "max", (group_total "max" cookies).
    split; [|split; reflexivity].
    apply get_some_in. subst cookies. now rewrite groups_of_cookies, Hmax.
  - destruct (process_request_reports w Hflag Hwf Hgroup)
      as (cn & cs & gn & gs & prefix & _ & Hlc & Hlg & _ & Hevs).
    subst evs. rewrite Hevs.
    destruct (reported_summary prefix cn cs
                (if gs <? cs then cn else gn) (if gs <? cs then cs else gs)
                (total_size (COOKIES (request w))))
      as (_ & _ & _ & Hgsize & _).
    exists (if gs <? cs then cs else gs). split; [exact Hgsize|].
    destruct Hlc as [_ Hcookies]. destruct Hlg as (_ & _ & Hgroups).
    split.
    + intros g Hg. specialize (Hgroups g Hg).
      destruct (gs <? cs) eqn:E; [apply Z.ltb_lt in E|]; fold cookies in Hgroups; lia.
    + intros n v Hin. specialize (Hcookies n v Hin).
      destruct (gs <? cs) eqn:E; [|apply Z.ltb_ge in E]; lia.
Qed.

Lemma sample_max_cookies_well_formed : Dict.well_formed sample_max_cookies.
Proof.
  unfold Dict.well_formed, sample_max_cookies. simpl.
  repeat constructor; simpl; intuition discriminate.
Qed.

Lemma group_max_attribute_overwritten_witness :
  let w := world_of true sample_max_cookies in
  let cookies := COOKIES (request w) in
  let evs := emitted w (snd (process_request w)) in
  In (SetCustomAttribute (group_attribute_name "max")
        (VInt (group_total "max" cookies))) evs /\
  exists size,
    reported (group_attribute_name "max") evs = Some (VInt size) /\
    (forall g, is_group g cookies = true -> group_total g cookies <= size) /\
    (forall n v, In (n, v) cookies -> len v <= size).
Proof.
  exact (group_max_attribute_overwritten (world_of true sample_max_cookies)
           eq_refl sample_max_cookies_well_formed eq_refl).
Defined.

(** ** Errors of course_id_from_url and get_request_or_stub *)

(** X12: [course_id_from_url] raises exactly what the key parser raises on
    the matched [course_id] of a present, matching URL, except
    [InvalidKeyError], which it never raises. *)
Theorem course_id_from_url_raises_iff (CourseKey Match : Type)
    (re_match : string -> option Match) (group : Match -> option string)
    (from_string : string -> result CourseKey) (url : option string)
    (e : exn) :
  course_id_from_url CourseKey Match re_match group from_string url = Raise e
  <->
  e <> InvalidKeyError /\
  exists u m cid,
    url = Some u /\ u <> "" /\ re_match u = Some m /\
    group m = Some cid /\ from_string cid = Raise e.
Proof.
  unfold course_id_from_url. destruct url as [u|]; cbn [falsy].
  2:{ split; [discriminate|]. intros (_ & u & m & cid & H & _). discriminate. }
  destruct (String.eqb u "") eqn:Hu.
  { apply String.eqb_eq in Hu. split; [discriminate|].
    intros (_ & u' & m & cid & H & Hne & _). inversion H; subst. contradiction. }
  apply String.eqb_neq in Hu.
  destruct (re_match u) as [m|] eqn:Hm.
  2:{ split; [discriminate|].
      intros (_ & u' & m & cid & H & _ & Hm' & _). inversion H; subst.
      congruence. }
  destruct (group m) as [cid|] eqn:Hg.
  2:{ split; [discriminate|].
      intros (_ & u' & m' & cid & H & _ & Hm' & Hg' & _). inversion H; subst.
      congruence. }
  destruct (from_string cid) as [key|e'] eqn:Hf; cbn.
  - split; [discriminate|].
    intros (_ & u' & m' & cid' & H & _ & Hm' & Hg' & Hf'). inversion H; subst.
    congruence.
  - destruct (exn_eqb e' InvalidKeyError) eqn:Ee.
    + assert (e' = InvalidKeyError) by (destruct e'; try discriminate; reflexivity).
      subst e'. split; [discriminate|].
      intros (Hne & u' & m' & cid' & H & _ & Hm' & Hg' & Hf'). inversion H; subst.
      congruence.
    + split.
      * intros [= <-]. split; [intros ->; discriminate|].
        now exists u, m, cid.
      * intros (_ & u' & m' & cid' & H & _ & Hm' & Hg' & Hf'). inversion H; subst.
        congruence.
Qed.

(** X13: [get_request_or_stub] returns the current request when there is
    one; otherwise it raises exactly what [urlparse] or the reading of the
    parsed port raises, and else returns a GET request to ["/"] whose
    ['SERVER_NAME'] is the parsed host name and whose ['SERVER_PORT'] is
    ['80'], whatever port the site name gives. *)
Theorem get_request_or_stub_outcome (urlparse : string -> result ParseResult)
    (settings : Settings) (current_request : option HttpRequest) :
  let full_url := "http://" ++ SITE_NAME settings in
  (forall r,
     current_request = Some r ->
     get_request_or_stub urlparse settings current_request = Ok r) /\
  (forall e,
     get_request_or_stub urlparse settings current_request = Raise e <->
     current_request = None /\
     (urlparse full_url = Raise e \/
      exists parsed_url,
        urlparse full_url = Ok parsed_url /\ port parsed_url = Raise e)) /\
  (forall stub,
     get_request_or_stub urlparse settings None = Ok stub ->
     exists parsed_url,
       urlparse full_url = Ok parsed_url /\
       method stub = "GET" /\ path stub = "/" /\
       Dict.get (META stub) "SERVER_NAME" =
         Some (py_of_optional_str (hostname parsed_url)) /\
       Dict.get (META stub) "SERVER_PORT" = Some (VStr "80")).
Proof.
  intros full_url. subst full_url. unfold get_request_or_stub.
  split; [|split].
  - intros r ->. reflexivity.
  - intros e. destruct current_request as [r|].
    + split; [discriminate|]. intros [H _]. discriminate.
    + destruct (urlparse ("http://" ++ SITE_NAME settings)) as [parsed|e'];
        cbn [result_bind].
      * destruct (port parsed) as [p|e''] eqn:Hport; cbn [result_bind].
        -- split; [discriminate|].
           intros [_ [H|(parsed' & [= <-] & H)]]; [discriminate|congruence].
        -- split.
           ++ intros [= <-]. split; [reflexivity|]. right. now exists parsed.
           ++ intros [_ [H|(parsed' & [= <-] & H)]]; [discriminate|congruence].
      * split.
        -- intros [= <-]. auto.
        -- intros [_ [[= <-]|(parsed' & H & _)]]; [reflexivity|discriminate].
  - intros stub.
    destruct (urlparse ("http://" ++ SITE_NAME settings)) as [parsed|e'];
      cbn [result_bind]; [|discriminate].
    destruct (port parsed) as [p|e'']; cbn [result_bind]; [|discriminate].
    intros [= <-]. exists parsed. split; [reflexivity|].
    apply stub_environ.
Qed.

(** ** The order of the cookies *)

Lemma total_size_permutation (l l' : list (string * string)) :
  Permutation l l' -> total_size l = total_size l'.
Proof.
  induction 1 as [|[n v] l l' _ IH|[n v] [n' v'] l|l l' l'' _ IH1 _ IH2];
    simpl; lia.
Qed.

Lemma group_total_permutation (g : string) (l l' : list (string * string)) :
  Permutation l l' -> group_total g l = group_total g l'.
Proof.
  induction 1 as [|[n v] l l' _ IH|[n v] [n' v'] l|l l' l'' _ IH1 _ IH2];
    simpl; lia.
Qed.

Lemma is_group_permutation (g : string) (l l' : list (string * string)) :
  Permutation l l' -> is_group g l = true -> is_group g l' = true.
Proof.
  intros Hperm. unfold is_group. rewrite !existsb_exists.
  intros (x & Hin & Hx). exists x. split; [|exact Hx].
  now apply (Permutation_in _ Hperm).
Qed.

Lemma has_group_permutation (l l' : list (string * string)) :
  Permutation l l' -> has_group l = true -> has_group l' = true.
Proof.
  intros Hperm. unfold has_group. rewrite !existsb_exists.
  intros (x & Hin & Hx). exists x. split; [|exact Hx].
  now apply (Permutation_in _ Hperm).
Qed.

Lemma largest_cookie_permutation (l l' : list (string * string))
    (n n' : string) (s s' : Z) :
  Permutation l l' -> largest_cookie l n s -> largest_cookie l' n' s' ->
  s <= s'.
Proof.
  intros Hperm [(v & Hin & Hlen) _] [_ Hmax]. subst s.
  apply (Hmax n). now apply (Permutation_in _ Hperm).
Qed.

Lemma largest_group_permutation (l l' : list (string * string))
    (g g' : string) (s s' : Z) :
  Permutation l l' -> largest_group l g s -> largest_group l' g' s' ->
  s <= s'.
Proof.
  intros Hperm (Hg & Hs & _) (_ & _ & Hmax). subst s.
  rewrite (group_total_permutation g l l' Hperm).
  apply Hmax. now apply (is_group_permutation g l l').
Qed.

(** X14: the sizes a completed run reports do not depend on the order of the
    cookies in the request: two requests with the same cookies in different
    orders report the same [cookies.max.size], [cookies.max.group.size] and
    [cookies_total_size]. *)
Theorem reported_sizes_order_independent (w w' : World) :
  capture_cookie_sizes w = true ->
  capture_cookie_sizes w' = true ->
  Dict.well_formed (COOKIES (request w)) ->
  Permutation (COOKIES (request w)) (COOKIES (request w')) ->
  has_group (COOKIES (request w)) = true ->
  let evs := emitted w (snd (process_request w)) in
  let evs' := emitted w' (snd (process_request w')) in
  fst (process_request w') = Ok None /\
  reported "cookies.max.size" evs' = reported "cookies.max.size" evs /\
  reported "cookies.max.group.size" evs' =
    reported "cookies.max.group.size" evs /\
  reported "cookies_total_size" evs' = reported "cookies_total_size" evs /\
  reported "cookies_total_size" evs <> None.
Proof.
  intros Hflag Hflag' Hwf Hperm Hgroup evs evs'.
  assert (Hwf' : Dict.well_formed (COOKIES (request w'))).
  { unfold Dict.well_formed, Dict.keys in *.
    apply (Permutation_NoDup (l := map fst (COOKIES (request w)))); [|exact Hwf].
    now apply Permutation_map. }
  pose proof (has_group_permutation _ _ Hperm Hgroup) as Hgroup'.
  destruct (process_request_reports w Hflag Hwf Hgroup)
    as (cn & cs & gn & gs & prefix & _ & Hlc & Hlg & _ & Hevs).
  destruct (process_request_reports w' Hflag' Hwf' Hgroup')
    as (cn' & cs' & gn' & gs' & prefix' & _ & Hlc' & Hlg' & Hok' & Hevs').
  subst evs evs'. rewrite Hevs, Hevs'.
  destruct (reported_summary prefix cn cs
              (if gs <? cs then cn else gn) (if gs <? cs then cs else gs)
              (total_size (COOKIES (request w))))
    as (_ & Hsize & _ & Hgsize & Htotal).
  destruct (reported_summary prefix' cn' cs'
              (if gs' <? cs' then cn' else gn') (if gs' <? cs' then cs' else gs')
              (total_size (COOKIES (request w'))))
    as (_ & Hsize' & _ & Hgsize' & Htotal').
  rewrite Hsize, Hsize', Hgsize, Hgsize', Htotal, Htotal'.
  assert (Hcs : cs = cs').
  { pose proof (largest_cookie_permutation _ _ _ _ _ _ Hperm Hlc Hlc').
    pose proof (largest_cookie_permutation _ _ _ _ _ _
                  (Permutation_sym Hperm) Hlc' Hlc).
    lia. }
  assert (Hgs : gs = gs').
  { pose proof (largest_group_permutation _ _ _ _ _ _ Hperm Hlg Hlg').
    pose proof (largest_group_permutation _ _ _ _ _ _
                  (Permutation_sym Hperm) Hlg' Hlg).
    lia. }
  subst cs' gs'. rewrite (total_size_permutation _ _ Hperm).
  split; [exact Hok'|]. repeat split; discriminate.
Qed.

Lemma sample_cookies_reordered_permutation :
  Permutation sample_cookies sample_cookies_reordered.
Proof. unfold sample_cookies, sample_cookies_reordered. apply perm_swap. Qed.

Lemma reported_sizes_order_independent_witness :
  let w := world_of true sample_cookies in
  let w' := world_of true sample_cookies_reordered in
  let evs := emitted w (snd (process_request w)) in
  let evs' := emitted w' (snd (process_request w')) in
  fst (process_request w') = Ok None /\
  reported "cookies.max.size" evs' = reported "cookies.max.size" evs /\
  reported "cookies.max.group.size" evs' =
    reported "cookies.max.group.size" evs /\
  reported "cookies_total_size" evs' = reported "cookies_total_size" evs /\
  reported "cookies_total_size" evs <> None.
Proof.
  exact (reported_sizes_order_independent (world_of true sample_cookies)
           (world_of true sample_cookies_reordered) eq_refl eq_refl
           sample_cookies_well_formed sample_cookies_reordered_permutation
           eq_refl).
Defined.

(** ** What a run lets out of the cookies *)

Lemma cookie_sizes_fold_ext (l : list (string * string)) :
  forall (l' : list (string * string)) (acc : Dict.t Z * Dict.t Z),
    map size_entry l = map size_entry l' ->
    fold_left cookie_loop_body l acc = fold_left cookie_loop_body l' acc.
Proof.
  induction l as [|[n v] l IH]; intros [|[n' v'] l'] acc Heq;
    try discriminate; [reflexivity|].
  simpl in Heq. unfold size_entry in Heq at 1 2. simpl in Heq.
  inversion Heq as [[Hn Hv Hrest]]. subst n'. cbn [fold_left].
  assert (Hbody : cookie_loop_body acc (n, v) = cookie_loop_body acc (n, v')).
  { destruct acc as [a g]. unfold cookie_loop_body. now rewrite Hv. }
  rewrite Hbody. now apply IH.
Qed.

(** X15: a run lets out nothing of the cookie values but their lengths: two
    requests whose cookies have the same names and values of the same
    lengths, under the same flag, have the same outcome and emit the same
    attributes and log records. *)
Theorem process_request_hides_values (w w' : World) :
  capture_cookie_sizes w = capture_cookie_sizes w' ->
  map size_entry (COOKIES (request w)) = map size_entry (COOKIES (request w')) ->
  fst (process_request w) = fst (process_request w') /\
  emitted w (snd (process_request w)) = emitted w' (snd (process_request w')).
Proof.
  intros Hflag Hsame.
  assert (Hsizes : cookie_sizes (COOKIES (request w)) =
                   cookie_sizes (COOKIES (request w'))).
  { unfold cookie_sizes, Dict.items. now apply cookie_sizes_fold_ext. }
  destruct (capture_cookie_sizes w) eqn:Hw; symmetry in Hflag.
  - rewrite (process_request_enabled w Hw), (process_request_enabled w' Hflag).
    cbv zeta. rewrite Hsizes.
    destruct (max_entry (fst (cookie_sizes (COOKIES (request w')))))
      as [[cn cs]|e]; cbn [fst snd].
    + destruct (max_entry (snd (cookie_sizes (COOKIES (request w')))))
        as [[gn gs]|e]; cbn [fst snd]; now rewrite !emitted_add_events.
    + now rewrite !emitted_add_events.
  - rewrite (process_request_disabled w Hw), (process_request_disabled w' Hflag).
    cbn [fst snd]. split; [reflexivity|].
    rewrite <- (add_events_nil w) at 2. rewrite <- (add_events_nil w') at 2.
    now rewrite !emitted_add_events.
Qed.

Lemma process_request_hides_values_witness :
  let w := world_of true sample_cookies in
  let w' := world_of true sample_cookies_other_values in
  fst (process_request w) = fst (process_request w') /\
  emitted w (snd (process_request w)) = emitted w' (snd (process_request w')).
Proof.
  exact (process_request_hides_values (world_of true sample_cookies)
           (world_of true sample_cookies_other_values) eq_refl eq_refl).
Defined.

(** ** The order of the recorded groups *)

Lemma keys_set (V : Type) (g : Dict.t V) (k : string) (v : V) :
  Dict.keys (Dict.set g k v) =
  if existsb (String.eqb k) (Dict.keys g) then Dict.keys g
  else (Dict.keys g ++ [k])%list.
Proof.
  unfold Dict.keys. induction g as [|[k' v'] g IH]; simpl; [reflexivity|].
  rewrite (String.eqb_sym k k').
  destruct (String.eqb k' k); simpl; [reflexivity|].
  rewrite IH. now destruct (existsb (String.eqb k) (map fst g)).
Qed.

Lemma filter_filter_andb (A : Type) (P Q : A -> bool) (l : list A) :
  filter P (filter Q l) = filter (fun y => Q y && P y) l.
Proof.
  induction l as [|x l IH]; simpl; [reflexivity|].
  destruct (Q x); simpl; [destruct (P x)|]; now rewrite IH.
Qed.

Lemma grouping_names_cons (n v : string) (l : list (string * string)) :
  grouping_names ((n, v) :: l) =
  if in_group n then grouping_name n :: grouping_names l else grouping_names l.
Proof. unfold grouping_names. simpl. now destruct (in_group n). Qed.

Lemma group_keys_fold (l : list (string * string)) :
  forall a g : Dict.t Z,
    Dict.keys (snd (fold_left cookie_loop_body l (a, g))) =
    (Dict.keys g ++
     filter (fun y => negb (existsb (String.eqb y) (Dict.keys g)))
       (first_occurrences (grouping_names l)))%list.
Proof.
  induction l as [|[n v] l IH]; intros a g; cbn [fold_left].
  - simpl. now rewrite app_nil_r.
  - destruct (cookie_loop_body (a, g) (n, v)) as [a' g'] eqn:E.
    assert (Hg' : g' = snd (cookie_loop_body (a, g) (n, v))) by now rewrite E.
    rewrite cookie_loop_body_snd in Hg'. rewrite IH, grouping_names_cons.
    subst g'. destruct (in_group n); [|reflexivity].
    set (gn := grouping_name n). set (X := first_occurrences (grouping_names l)).
    rewrite keys_set. cbn [first_occurrences]. fold X. cbn [filter].
    destruct (existsb (String.eqb gn) (Dict.keys g)) eqn:Hmem; cbn [negb].
    + f_equal. rewrite filter_filter_andb. apply filter_ext. intros y.
      destruct (String.eqb gn y) eqn:Hy; [|reflexivity].
      apply String.eqb_eq in Hy. subst y. cbn [negb andb]. now rewrite Hmem.
    + rewrite <- app_assoc. f_equal. simpl. f_equal.
      rewrite filter_filter_andb. apply filter_ext. intros y.
      rewrite existsb_app. simpl. rewrite orb_false_r, negb_orb.
      now rewrite andb_comm, (String.eqb_sym y gn).
Qed.

(** X16: the prefixes are recorded in [cookie_groups_to_size], and so their
    attributes are emitted and compared by [max], in the order in which the
    first cookie of each group comes in the request. *)
Theorem group_order_spec (cookies : Dict.t string) :
  Dict.keys (snd (cookie_sizes cookies)) =
  first_occurrences (grouping_names cookies).
Proof.
  unfold cookie_sizes, Dict.items. rewrite group_keys_fold. simpl.
  induction (first_occurrences (grouping_names cookies)) as [|x l IH];
    simpl; [reflexivity|now rewrite IH].
Qed.
